(** * Solar system scene (src/main.js): per-frame update and scene assembly

    A shallow embedding of the animation code of [main.js]: the planet
    registry, the scene assembly (planets, moons, labels, asteroid belt,
    Saturn's ring, near-camera pebbles) and the frame callback [renderLoop].

    Numbers.  JavaScript numbers are IEEE-754 doubles; here they are
    idealised as real numbers, so that [Math.sin], [Math.cos], [Math.sqrt]
    and [Math.PI] have their mathematical meaning and every arithmetic
    expression of the source is read without rounding.  Rounding (and the
    [Float32Array] that stores the pebbles' rotation phases) is outside of
    this model.  Branches of the source that test numbers ([>], [!==],
    [||], [&&]) are decided with the decision procedures of the reals.

    Randomness.  [Math.random()] is a global source of numbers in [0,1).
    The n-th number it returns during the life of the page is [random n];
    the scene state records how many numbers have been drawn so far. *)

From Stdlib Require Import Reals Lra Lia List String Ascii Bool Arith.
Import ListNotations.
Open Scope R_scope.

(** ** JavaScript operators on numbers *)

Module JS.

(** [x ?? d] for a number that may be [null] or [undefined]. *)
Definition nullish {A : Type} (x : option A) (d : A) : A :=
  match x with
  | Some v => v
  | None => d
  end.

(** Truthiness of a number: every number but [0] (there is no NaN here). *)
Definition truthy (x : R) : bool :=
  if Req_dec_T x 0 then false else true.

(** [x || d] on numbers. *)
Definition or (x d : R) : R :=
  if truthy x then x else d.

(** [a !== b] on numbers. *)
Definition neq (a b : R) : bool :=
  if Req_dec_T a b then false else true.

(** [a > b] on numbers. *)
Definition gt (a b : R) : bool :=
  if Rgt_dec a b then true else false.

End JS.

(** ** The part of three.js the animation relies on *)

Module THREE.

Record Vector3 : Type := mkVector3 { x : R; y : R; z : R }.

Record Quaternion : Type := mkQuaternion { qx : R; qy : R; qz : R; qw : R }.

(** A fresh [Object3D] has the identity quaternion. *)
Definition identity : Quaternion := mkQuaternion 0 0 0 1.

(** [Vector3.length]. *)
Definition length (v : Vector3) : R :=
  sqrt (x v * x v + y v * y v + z v * z v).

(** [Vector3.normalize]: [divideScalar(length() || 1)]. *)
Definition normalize (v : Vector3) : Vector3 :=
  let s := 1 / JS.or (length v) 1 in
  mkVector3 (x v * s) (y v * s) (z v * s).

(** [MathUtils.degToRad]. *)
Definition degToRad (degrees : R) : R := degrees * (PI / 180).

(** [Quaternion.setFromAxisAngle]; the axis is assumed normalised. *)
Definition setFromAxisAngle (axis : Vector3) (angle : R) : Quaternion :=
  let halfAngle := angle / 2 in
  let s := sin halfAngle in
  mkQuaternion (x axis * s) (y axis * s) (z axis * s) (cos halfAngle).

(** [Quaternion.setFromEuler] for the default order XYZ. *)
Definition setFromEuler (ex ey ez : R) : Quaternion :=
  let c1 := cos (ex / 2) in
  let c2 := cos (ey / 2) in
  let c3 := cos (ez / 2) in
  let s1 := sin (ex / 2) in
  let s2 := sin (ey / 2) in
  let s3 := sin (ez / 2) in
  mkQuaternion (s1 * c2 * c3 + c1 * s2 * s3)
               (c1 * s2 * c3 - s1 * c2 * s3)
               (c1 * c2 * s3 + s1 * s2 * c3)
               (c1 * c2 * c3 - s1 * s2 * s3).

(** [Quaternion.multiplyQuaternions(a, b)]. *)
Definition multiplyQuaternions (a b : Quaternion) : Quaternion :=
  mkQuaternion
    (qx a * qw b + qw a * qx b + qy a * qz b - qz a * qy b)
    (qy a * qw b + qw a * qy b + qz a * qx b - qx a * qz b)
    (qz a * qw b + qw a * qz b + qx a * qy b - qy a * qx b)
    (qw a * qw b - qx a * qx b - qy a * qy b - qz a * qz b).

(** [Object3D.rotateY(angle)]: the object's quaternion is multiplied on
    the right by the rotation of [angle] about the local Y axis. *)
Definition rotateY (q : Quaternion) (angle : R) : Quaternion :=
  multiplyQuaternions q (setFromAxisAngle (mkVector3 0 1 0) angle).

(** The opposite quaternion; [q] and [negate q] are the same rotation. *)
Definition negate (q : Quaternion) : Quaternion :=
  mkQuaternion (- qx q) (- qy q) (- qz q) (- qw q).

(** Two unit quaternions give one orientation exactly when they are equal
    or opposite. *)
Definition sameOrientation (a b : Quaternion) : Prop :=
  a = b \/ a = negate b.

End THREE.

(** The rotation by [theta] about the Y axis, as a quaternion. *)
Definition spinY (theta : R) : THREE.Quaternion :=
  THREE.setFromAxisAngle (THREE.mkVector3 0 1 0) theta.

(** ** The panel-bound settings object [params] *)

Record Params : Type := mkParams {
  showOrbits : bool;
  timeScale : option R;          (* read with [?? 1.0] *)
  spaceDustEnabled : bool;
  spaceDustCount : nat;
  spaceDustSpeed : R;
  spaceDustSize : R;
  spaceDustSpread : R;
  spaceDustMinScale : R;
  spaceDustMaxScale : R;
  spaceDustRotSpeed : R;
  labelsEnabled : bool;
  labelSize : R
}.

(** The values [params] has when the module is loaded. *)
Definition params : Params :=
  {| showOrbits := true;
     timeScale := Some 1.0;
     spaceDustEnabled := true;
     spaceDustCount := 800;
     spaceDustSpeed := 0.6;
     spaceDustSize := 1.5;
     spaceDustSpread := 40;
     spaceDustMinScale := 0.05;
     spaceDustMaxScale := 0.22;
     spaceDustRotSpeed := 1.2;
     labelsEnabled := true;
     labelSize := 0.6 |}.

(** ** Planet data model *)

Record MoonData : Type := mkMoonData {
  m_name : string;
  m_radius : R;
  m_distance : R;
  m_speed : R
}.

(** A planet configuration record.  [moons] is [None] when the property is
    not an array (the assembly tests [Array.isArray(p.moons)]). *)
Record PlanetData : Type := mkPlanetData {
  name : string;
  radius : R;
  distance : R;
  speed : R;
  tilt : R;
  moons : option (list MoonData)
}.

Definition planets : list PlanetData :=
  [ mkPlanetData "Mercury" 0.40 8 0.02076050 0.034 (Some []);
    mkPlanetData "Venus" 0.95 12 0.00812760 177.3 (Some []);
    mkPlanetData "Earth" 1.0 18 0.005 23.5
      (Some [ mkMoonData "Moon" 0.27 2.5 0.015 ]);
    mkPlanetData "Mars" 0.55 25 0.00281185 25.2
      (Some [ mkMoonData "Phobos" 0.03 1.1 1.28473354;
              mkMoonData "Deimos" 0.02 1.6 0.32448931 ]);
    mkPlanetData "Jupiter" 5.2 40 0.00042144 3.1
      (Some [ mkMoonData "Io" 0.29 3.2 0.02306162;
              mkMoonData "Europa" 0.25 4.5 0.01155051;
              mkMoonData "Ganymede" 0.42 6.5 0.00322284;
              mkMoonData "Callisto" 0.38 9.0 0.00134651 ]);
    mkPlanetData "Saturn" 4.6 58 0.00016964 26.7
      (Some [ mkMoonData "Titan" 0.40 4.0 0.00128921;
              mkMoonData "Rhea" 0.12 2.4 0.00361402 ]);
    mkPlanetData "Uranus" 2.0 78 0.0000595 97.8
      (Some [ mkMoonData "Titania" 0.125 2.8 0.04707443;
              mkMoonData "Oberon" 0.12 4.2 0.03044121 ]);
    mkPlanetData "Neptune" 1.95 98 0.0000303 28.3
      (Some [ mkMoonData "Triton" 0.21 3.0 0.06973456 ]) ].

(** ** Scene objects *)

(** [moonMesh.userData.orbit]: the moon's local orbit parameters and its
    mutable phase [angle]. *)
Record Orbit : Type := mkOrbit {
  o_distance : R;
  o_speed : R;
  angle : R
}.

(** The [userData] bag of a child of a planet mesh. *)
Record UserData : Type := mkUserData {
  isMoon : bool;
  orbit : option Orbit
}.

(** A child of a planet mesh: a moon mesh, a label anchor or the ring
    group.  The frame callback tells them apart by [userData] only. *)
Record Object3D : Type := mkObject3D {
  position : THREE.Vector3;
  scale : R;
  userData : UserData
}.

(** A rock of Saturn's ring. *)
Record Rock : Type := mkRock {
  rock_position : THREE.Vector3;
  rock_scale : R
}.

(** The ring group [saturnMesh.userData.ring]. *)
Record Ring : Type := mkRing {
  rocks : list Rock;
  ring_rotation_x : R;
  ring_rotation_y : R
}.

(** An entry of [created]: the planet's configuration and its three
    nested objects, orbit group -> tilt group -> planet mesh.  Of the two
    groups only the Euler angle the code writes is kept. *)
Record Created : Type := mkCreated {
  data : PlanetData;
  orbit_rotation_y : R;                 (* obj.orbit.rotation.y *)
  tilt_rotation_z : R;                  (* obj.tilt.rotation.z *)
  mesh_position : THREE.Vector3;        (* obj.mesh.position *)
  mesh_scale : R;                       (* obj.mesh.scale, uniform *)
  mesh_quaternion : THREE.Quaternion;   (* obj.mesh.quaternion *)
  children : list Object3D;             (* obj.mesh.children *)
  ring : option Ring                    (* obj.mesh.userData.ring *)
}.

(** One instance of the asteroid belt: the position, uniform scale and
    Euler rotation its instance matrix is composed from. *)
Record Instance : Type := mkInstance {
  i_position : THREE.Vector3;
  i_scale : R;
  i_rotation : THREE.Vector3
}.

(** The instanced mesh of the asteroid belt. *)
Record Belt : Type := mkBelt {
  instances : list Instance;
  belt_rotation_x : R;
  belt_rotation_y : R
}.

(** One near-camera pebble: entry [i] of the parallel arrays [pos],
    [scale], [rotAxis], [rotSpeed] and [rotAngle], which all have the
    length [count]. *)
Record Pebble : Type := mkPebble {
  pos : THREE.Vector3;
  p_scale : R;
  rotAxis : THREE.Vector3;
  rotSpeed : R;
  rotAngle : R
}.

(** The object returned by [createSpacePebbles]. *)
Record Dust : Type := mkDust {
  inst_visible : bool;
  pebbles : list Pebble;
  spread : R;
  near : R;
  far : R;
  sMin : R;
  sMax : R
}.

(** A troika text label; [syncs] counts the calls of [label.sync]. *)
Record Label : Type := mkLabel {
  text : string;
  fontSize : R;
  visible : bool;
  quaternion : THREE.Quaternion;
  syncs : nat
}.

(** An entry of [scene.userData._labels]; [planetObj] is the index in
    [created] of the planet whose mesh carries the label's anchor. *)
Record LabelRec : Type := mkLabelRec {
  label : Label;
  planetObj : nat
}.

(** The mutable state of the page: what [created] and [scene.userData]
    hold, and the number of [Math.random()] calls made so far. *)
Record Scene : Type := mkScene {
  created : list Created;
  asteroidBelt : option Belt;
  spaceDust : option Dust;
  _labels : option (list LabelRec);
  drawn : nat
}.

(** What one invocation of the frame callback reads from its environment:
    the clock's delta, the settings object and the camera's quaternion. *)
Record Frame : Type := mkFrame {
  dt : R;
  f_params : Params;
  camera_quaternion : THREE.Quaternion
}.

(** Field updates, written as the assignments of the source. *)

Definition set_children (ch : list Object3D) (obj : Created) : Created :=
  mkCreated (data obj) (orbit_rotation_y obj) (tilt_rotation_z obj)
            (mesh_position obj) (mesh_scale obj) (mesh_quaternion obj)
            ch (ring obj).

Definition set_ring (r : option Ring) (obj : Created) : Created :=
  mkCreated (data obj) (orbit_rotation_y obj) (tilt_rotation_z obj)
            (mesh_position obj) (mesh_scale obj) (mesh_quaternion obj)
            (children obj) r.

Definition set_label (l : Label) (rec : LabelRec) : LabelRec :=
  mkLabelRec l (planetObj rec).

Definition set_visible (v : bool) (l : Label) : Label :=
  mkLabel (text l) (fontSize l) v (quaternion l) (syncs l).

(** ** Options of the generators *)

(** The options object of [createAsteroidBelt]; an absent property takes
    the default of the destructuring pattern. *)
Record BeltOptions : Type := mkBeltOptions {
  bo_innerRadius : option R;
  bo_outerRadius : option R;
  bo_thickness : option R;
  bo_count : option nat;
  bo_minScale : option R;
  bo_maxScale : option R
}.

(** The options object of [createSpacePebbles]; an absent property falls
    back with [??]. *)
Record PebbleOptions : Type := mkPebbleOptions {
  po_count : option nat;
  po_spread : option R;
  po_near : option R;
  po_far : option R;
  po_minScale : option R;
  po_maxScale : option R
}.

(** [document.querySelector('#canvas')] yields an element or [null]. *)
Variant Element : Type := canvasElement.

(** The message of the error thrown when the canvas is missing:
    [Canvas with id="canvas" not found]. *)
Definition canvasNotFound : string :=
  let dq := String (ascii_of_nat 34) EmptyString in
  ("Canvas with id=" ++ dq ++ "canvas" ++ dq ++ " not found")%string.

(** The radius the asteroid belt samples from the uniform number [u]. *)
Definition beltRadius (innerRadius outerRadius u : R) : R :=
  sqrt (u * (outerRadius * outerRadius - innerRadius * innerRadius)
        + innerRadius * innerRadius).

(** The radius Saturn's ring samples from the uniform number [u]: linear
    in [u]. *)
Definition ringRadius (innerRadius outerRadius u : R) : R :=
  innerRadius + u * (outerRadius - innerRadius).

Section Animation.

(** The successive results of [Math.random()]. *)
Variable random : nat -> R.

(** [rnd(a, b)] of [createSpacePebbles], reading draw number [k]. *)
Definition rnd (a b : R) (k : nat) : R := a + random k * (b - a).

(** *** Scene assembly *)

Definition buildPlanetWithTilt (planetData : PlanetData) : Created :=
  let tiltRad := JS.or (tilt planetData) 0 * PI / 180 in
  {| data := planetData;
     orbit_rotation_y := 0;
     tilt_rotation_z := tiltRad;
     mesh_position := THREE.mkVector3 (distance planetData) 0 0;
     mesh_scale := radius planetData;
     mesh_quaternion := THREE.identity;
     children := [];
     ring := None |}.

(** The moon mesh built for [m]; its start phase is draw number [k]. *)
Definition moonMesh (m : MoonData) (k : nat) : Object3D :=
  {| position := THREE.mkVector3 (m_distance m) 0 0;
     scale := m_radius m;
     userData :=
       {| isMoon := true;
          orbit := Some {| o_distance := m_distance m;
                           o_speed := m_speed m;
                           angle := random k * PI * 2 |} |} |}.

(** [p.moons.forEach]: every moon is added to the planet mesh. *)
Fixpoint addMoons (ms : list MoonData) (ch : list Object3D) (k : nat)
  : list Object3D * nat :=
  match ms with
  | [] => (ch, k)
  | m :: rest => addMoons rest (ch ++ [moonMesh m k]) (S k)
  end.

(** The body of [created.forEach] that attaches the moons of one planet. *)
Definition attachMoons (obj : Created) (k : nat) : Created * nat :=
  match moons (data obj) with
  | Some ms =>
      let (ch, k') := addMoons ms (children obj) k in
      (set_children ch obj, k')
  | None => (obj, k)
  end.

Fixpoint attachAllMoons (l : list Created) (k : nat)
  : list Created * nat :=
  match l with
  | [] => ([], k)
  | obj :: rest =>
      let (obj', k') := attachMoons obj k in
      let (rest', k'') := attachAllMoons rest k' in
      (obj' :: rest', k'')
  end.

(** [makeLabelMesh]: the text is synchronised once when it is made. *)
Definition makeLabelMesh (labelText : string) (size : R) : Label :=
  {| text := labelText;
     fontSize := size;
     visible := true;
     quaternion := THREE.identity;
     syncs := 1 |}.

(** The anchor that carries a planet's label, a child of the planet mesh. *)
Definition labelAnchor (obj : Created) : Object3D :=
  let r := radius (data obj) in
  {| position := THREE.mkVector3 (r * 1.2) (r * 0.9) 0;
     scale := 1;
     userData := {| isMoon := false; orbit := None |} |}.

(** [addPlanetLabels]; [i] is the index of the head of [l] in [created]. *)
Fixpoint addPlanetLabels (P : Params) (l : list Created) (i : nat)
  : list Created * list LabelRec :=
  match l with
  | [] => ([], [])
  | obj :: rest =>
      let size := JS.or (labelSize P) 0.6 in
      let lab := makeLabelMesh (name (data obj)) size in
      let obj' := set_children (children obj ++ [labelAnchor obj]) obj in
      let (rest', recs) := addPlanetLabels P rest (S i) in
      (obj' :: rest', mkLabelRec lab i :: recs)
  end.

(** One instance of the asteroid belt, from draws [k .. k+7]. *)
Definition beltInstance
  (innerRadius outerRadius thickness minScale maxScale : R) (k : nat)
  : Instance :=
  let angle := random k * PI * 2 in
  let u := random (k + 1) in
  let r := beltRadius innerRadius outerRadius u in
  let ecc := (random (k + 2) - 0.5) * (outerRadius - innerRadius) * 0.03 in
  let x := cos angle * (r + ecc) in
  let z := sin angle * (r + ecc) in
  let y := (random (k + 3) - 0.5) * thickness in
  let s := minScale + random (k + 4) * (maxScale - minScale) in
  {| i_position := THREE.mkVector3 x y z;
     i_scale := s;
     i_rotation := THREE.mkVector3 (random (k + 5) * PI)
                                   (random (k + 6) * PI)
                                   (random (k + 7) * PI) |}.

Fixpoint beltInstances
  (innerRadius outerRadius thickness minScale maxScale : R)
  (count k : nat) : list Instance :=
  match count with
  | O => []
  | S n =>
      beltInstance innerRadius outerRadius thickness minScale maxScale k
      :: beltInstances innerRadius outerRadius thickness minScale maxScale
                       n (k + 8)
  end.

Definition createAsteroidBelt (options : BeltOptions) (k : nat)
  : Belt * nat :=
  let innerRadius := JS.nullish (bo_innerRadius options) 28 in
  let outerRadius := JS.nullish (bo_outerRadius options) 36 in
  let thickness := JS.nullish (bo_thickness options) 2.0 in
  let count := JS.nullish (bo_count options) 2000%nat in
  let minScale := JS.nullish (bo_minScale options) 0.05 in
  let maxScale := JS.nullish (bo_maxScale options) 0.25 in
  ({| instances := beltInstances innerRadius outerRadius thickness
                                 minScale maxScale count k;
      belt_rotation_x := THREE.degToRad 2;
      belt_rotation_y := 0 |},
   (k + 8 * count)%nat).

(** One rock of Saturn's ring, from draws [k .. k+3]. *)
Definition ringRock (innerRadius outerRadius : R) (k : nat) : Rock :=
  let angle := random k * PI * 2 in
  let radius := ringRadius innerRadius outerRadius (random (k + 1)) in
  let y := (random (k + 2) - 0.5) * 0.5 in
  {| rock_position := THREE.mkVector3 (cos angle * radius) y
                                      (sin angle * radius);
     rock_scale := 0.1 + random (k + 3) * 0.3 |}.

Fixpoint ringRocks (innerRadius outerRadius : R) (count k : nat)
  : list Rock :=
  match count with
  | O => []
  | S n => ringRock innerRadius outerRadius k
           :: ringRocks innerRadius outerRadius n (k + 4)
  end.

(** [createSaturnRing]: the ring group is added to the mesh's children
    and returned. *)
Definition createSaturnRing (saturnMesh : Created) (k : nat)
  : Created * Ring * nat :=
  let innerRadius := mesh_scale saturnMesh * 0.3 in
  let outerRadius := mesh_scale saturnMesh * 0.55 in
  let ringGroup :=
    {| rocks := ringRocks innerRadius outerRadius 700 k;
       ring_rotation_x := THREE.degToRad 12;
       ring_rotation_y := 0 |} in
  let node :=
    {| position := THREE.mkVector3 0 0 0;
       scale := 1;
       userData := {| isMoon := false; orbit := None |} |} in
  (set_children (children saturnMesh ++ [node]) saturnMesh,
   ringGroup, (k + 4 * 700)%nat).

(** The predicate of [findIndex] and [find]: the entry is named Saturn. *)
Definition isSaturn (c : Created) : bool :=
  String.eqb (name (data c)) "Saturn".

(** "Find Saturn and add ring": the first planet named Saturn gets the
    ring, kept in [userData.ring]. *)
Fixpoint addSaturnRing (l : list Created) (k : nat)
  : list Created * nat :=
  match l with
  | [] => ([], k)
  | c :: rest =>
      if isSaturn c then
        let '(c', saturnRing, k') := createSaturnRing c k in
        (set_ring (Some saturnRing) c' :: rest, k')
      else
        let (rest', k') := addSaturnRing rest k in
        (c :: rest', k')
  end.

(** One pebble of the near-camera field, from draws [k .. k+8]. *)
Definition newPebble (P : Params) (spread near far sMin sMax : R)
  (k : nat) : Pebble :=
  {| pos := THREE.mkVector3
              (rnd (- spread * 0.5) (spread * 0.5) k)
              (rnd (- spread * 0.5) (spread * 0.5) (k + 1))
              (- near - random (k + 2) * (far - near));
     p_scale := rnd sMin sMax (k + 3);
     rotAxis := THREE.normalize
                  (THREE.mkVector3 (random (k + 4)) (random (k + 5))
                                   (random (k + 6)));
     rotSpeed := rnd 0.3 (JS.or (spaceDustRotSpeed P) 1.2) (k + 7);
     rotAngle := random (k + 8) * PI * 2 |}.

Fixpoint newPebbles (P : Params) (spread near far sMin sMax : R)
  (count k : nat) : list Pebble :=
  match count with
  | O => []
  | S n => newPebble P spread near far sMin sMax k
           :: newPebbles P spread near far sMin sMax n (k + 9)
  end.

Definition createSpacePebbles (P : Params) (opts : PebbleOptions)
  (k : nat) : Dust * nat :=
  let count := JS.nullish (po_count opts) (spaceDustCount P) in
  let spread := JS.nullish (po_spread opts) (spaceDustSpread P) in
  let near := JS.nullish (po_near opts) 2 in
  let far := JS.nullish (po_far opts) 60 in
  let sMin := JS.nullish (po_minScale opts) (spaceDustMinScale P) in
  let sMax := JS.nullish (po_maxScale opts) (spaceDustMaxScale P) in
  ({| inst_visible := true;
      pebbles := newPebbles P spread near far sMin sMax count k;
      spread := spread; near := near; far := far;
      sMin := sMin; sMax := sMax |},
   (k + 9 * count)%nat).

(** The options both call sites of [createSpacePebbles] pass. *)
Definition pebbleOptions (P : Params) : PebbleOptions :=
  {| po_count := Some (spaceDustCount P);
     po_spread := Some (spaceDustSpread P);
     po_near := Some 2;
     po_far := Some 60;
     po_minScale := Some (spaceDustMinScale P);
     po_maxScale := Some (spaceDustMaxScale P) |}.

(** *** The frame callback *)

(** The body of [obj.mesh.children.forEach]: a moon advances its phase
    and is put back on its circle; any other child is left alone. *)
Definition animateChild (dt t : R) (child : Object3D) : Object3D :=
  match isMoon (userData child), orbit (userData child) with
  | true, Some mo =>
      let angle' := angle mo + o_speed mo * dt * t in
      let mo' := mkOrbit (o_distance mo) (o_speed mo) angle' in
      {| position :=
           THREE.mkVector3 (sin angle' * o_distance mo)
                           (THREE.y (position child))
                           (cos angle' * o_distance mo);
         scale := scale child;
         userData := mkUserData (isMoon (userData child)) (Some mo') |}
  | _, _ => child
  end.

(** The body of [created.forEach] in [renderLoop]. *)
Definition animatePlanet (dt t : R) (obj : Created) : Created :=
  let p := data obj in
  {| data := p;
     orbit_rotation_y := orbit_rotation_y obj + speed p * dt * 0.2 * t;
     tilt_rotation_z := tilt_rotation_z obj;
     mesh_position := mesh_position obj;
     mesh_scale := mesh_scale obj;
     mesh_quaternion := THREE.rotateY (mesh_quaternion obj)
                                      (speed p * dt * t);
     children := map (animateChild dt t) (children obj);
     ring := ring obj |}.

(** "Rotate Saturn's ring slowly (if present)": [created.find] stops at
    the first entry named Saturn; its ring, if it has one, is turned. *)
Fixpoint spinSaturnRing (t : R) (l : list Created) : list Created :=
  match l with
  | [] => []
  | c :: rest =>
      if isSaturn c then
        match ring c with
        | Some r =>
            set_ring (Some (mkRing (rocks r) (ring_rotation_x r)
                                   (ring_rotation_y r + 0.001 * t))) c
            :: rest
        | None => c :: rest
        end
      else c :: spinSaturnRing t rest
  end.

(** "rotate asteroid belt if created". *)
Definition spinBelt (dt t : R) (b : option Belt) : option Belt :=
  match b with
  | Some belt =>
      Some (mkBelt (instances belt) (belt_rotation_x belt)
                   (belt_rotation_y belt + 0.02 * dt * t))
  | None => None
  end.

(** The body of the loop over the pebbles, for one pebble: move, recycle
    with draws [k] and [k+1], spin. *)
Definition movePebble (dustObj : Dust) (dtMove dt : R) (p : Pebble)
  (k : nat) : Pebble * nat :=
  let z1 := THREE.z (pos p) + dtMove in
  let (pos', k') :=
    if JS.gt z1 (- near dustObj) then
      (THREE.mkVector3 ((random k - 0.5) * spread dustObj)
                       ((random (k + 1) - 0.5) * spread dustObj)
                       (- far dustObj),
       (k + 2)%nat)
    else
      (THREE.mkVector3 (THREE.x (pos p)) (THREE.y (pos p)) z1, k) in
  ({| pos := pos';
      p_scale := p_scale p;
      rotAxis := rotAxis p;
      rotSpeed := rotSpeed p;
      rotAngle := rotAngle p + rotSpeed p * dt |},
   k').

Fixpoint movePebbles (dustObj : Dust) (dtMove dt : R) (ps : list Pebble)
  (k : nat) : list Pebble * nat :=
  match ps with
  | [] => ([], k)
  | p :: rest =>
      let (p', k') := movePebble dustObj dtMove dt p k in
      let (rest', k'') := movePebbles dustObj dtMove dt rest k' in
      (p' :: rest', k'')
  end.

(** What a frame does to the object [dustObj] itself: the visibility
    toggle and, when enabled, the loop over its pebbles. *)
Definition updateDust (P : Params) (dt : R) (dustObj : Dust) (k : nat)
  : Dust * nat :=
  let enabled := spaceDustEnabled P in
  if enabled then
    let tScale := JS.nullish (timeScale P) 1 * JS.or (spaceDustSpeed P) 0.6 in
    let dtMove := tScale * dt in
    let (ps, k') := movePebbles dustObj dtMove dt (pebbles dustObj) k in
    (mkDust enabled ps (spread dustObj) (near dustObj) (far dustObj)
            (sMin dustObj) (sMax dustObj),
     k')
  else
    (mkDust enabled (pebbles dustObj) (spread dustObj) (near dustObj)
            (far dustObj) (sMin dustObj) (sMax dustObj),
     k).

(** The test of "Live changes: count/spread -> recreate". *)
Definition dustChanged (P : Params) (dustObj : Dust) : bool :=
  negb (Nat.eqb (spaceDustCount P) (List.length (pebbles dustObj)))
  || JS.neq (spaceDustSpread P) (spread dustObj)
  || JS.neq (spaceDustMinScale P) (sMin dustObj)
  || JS.neq (spaceDustMaxScale P) (sMax dustObj).

(** The field [scene.userData.spaceDust] refers to after the frame: the
    updated [dustObj], or a new field when the settings changed.  The
    test sits inside the enabled branch of the source. *)
Definition renewDust (P : Params) (dustObj : Dust) (k : nat)
  : Dust * nat :=
  if spaceDustEnabled P && dustChanged P dustObj then
    createSpacePebbles P (pebbleOptions P) k
  else (dustObj, k).

(** The body of the second [_labels.forEach]: billboard and size. *)
Definition faceCamera (P : Params) (camera : THREE.Quaternion)
  (l : Label) : Label :=
  let wantSize := JS.or (labelSize P) 0.6 in
  if JS.truthy (fontSize l)
     && JS.gt (Rabs (fontSize l - wantSize)) 0.001 then
    {| text := text l;
       fontSize := wantSize;
       visible := visible l;
       quaternion := camera;
       syncs := S (syncs l) |}
  else
    {| text := text l;
       fontSize := fontSize l;
       visible := visible l;
       quaternion := camera;
       syncs := syncs l |}.

(** "labels update" for one record of [_labels]. *)
Definition updateLabel (P : Params) (camera : THREE.Quaternion)
  (rec : LabelRec) : LabelRec :=
  let show := labelsEnabled P in
  let l := set_visible show (label rec) in
  set_label (if show then faceCamera P camera l else l) rec.

Definition renderLoop (scene : Scene) (f : Frame) : Scene :=
  let P := f_params f in
  let t := JS.nullish (timeScale P) 1.0 in
  let created1 := map (animatePlanet (dt f) t) (created scene) in
  let created2 := spinSaturnRing t created1 in
  let belt := spinBelt (dt f) t (asteroidBelt scene) in
  let (dust, k) :=
    match spaceDust scene with
    | Some dustObj =>
        let (d, k) := updateDust P (dt f) dustObj (drawn scene) in
        let (d', k') := renewDust P d k in
        (Some d', k')
    | None => (None, drawn scene)
    end in
  let labels :=
    match _labels scene with
    | Some recs => Some (map (updateLabel P (camera_quaternion f)) recs)
    | None => None
    end in
  {| created := created2;
     asteroidBelt := belt;
     spaceDust := dust;
     _labels := labels;
     drawn := k |}.

(** The frames the host delivers, in order. *)
Definition run (scene : Scene) (frames : list Frame) : Scene :=
  fold_left renderLoop frames scene.

(** *** The module body *)

(** Everything the module builds before it looks for the canvas. *)
Definition assemble : Scene :=
  let created0 := map buildPlanetWithTilt planets in
  let (created1, k1) := attachAllMoons created0 0 in
  let (created2, labels) := addPlanetLabels params created1 0 in
  let (belt, k2) :=
    createAsteroidBelt
      (mkBeltOptions (Some 28) (Some 33) (Some 2.0) (Some 2000%nat)
                     (Some 0.04) (Some 0.18)) k1 in
  let (created3, k3) := addSaturnRing created2 k2 in
  {| created := created3;
     asteroidBelt := Some belt;
     spaceDust := None;
     _labels := Some labels;
     drawn := k3 |}.

(** "Create near-camera pebbles", done unless a field exists already. *)
Definition addSpaceDust (scene : Scene) : Scene :=
  match spaceDust scene with
  | Some _ => scene
  | None =>
      let (d, k) :=
        createSpacePebbles params (pebbleOptions params) (drawn scene) in
      mkScene (created scene) (asteroidBelt scene) (Some d)
              (_labels scene) k
  end.

(** The module from top to bottom.  [canvas] is what the page holds
    under [#canvas]; [first] is the frame of the call [renderLoop()] that
    kicks the loop off and [later] the frames the host schedules after
    it.  The result is the thrown error, or the scene after the frames. *)
Definition main (canvas : option Element) (first : Frame)
  (later : list Frame) : string + Scene :=
  let scene := assemble in
  match canvas with
  | None => inl canvasNotFound
  | Some _ => inr (run (addSpaceDust scene) (first :: later))
  end.

(** The orientation of a label in the world: the rotations of its
    ancestors, orbit group, tilt group and planet mesh (the anchor is not
    rotated), composed with its own quaternion. *)
Definition worldQuaternion (obj : Created) (l : Label)
  : THREE.Quaternion :=
  THREE.multiplyQuaternions
    (THREE.multiplyQuaternions
       (THREE.multiplyQuaternions
          (THREE.setFromEuler 0 (orbit_rotation_y obj) 0)
          (THREE.setFromEuler 0 0 (tilt_rotation_z obj)))
       (mesh_quaternion obj))
    (quaternion l).

End Animation.

(** ** Derived notions used in the statements *)

(** The global multiplier a frame applies: [params.timeScale ?? 1.0]. *)
Definition multiplier (f : Frame) : R :=
  JS.nullish (timeScale (f_params f)) 1.0.

(** Scaled time elapsed over a sequence of frames. *)
Fixpoint elapsed (frames : list Frame) : R :=
  match frames with
  | [] => 0
  | f :: rest => dt f * multiplier f + elapsed rest
  end.

(** The sum of the multipliers of a sequence of frames: what the frames
    count for when [dt] plays no part. *)
Fixpoint ticks (frames : list Frame) : R :=
  match frames with
  | [] => 0
  | f :: rest => multiplier f + ticks rest
  end.

(** A child of a planet mesh that, if it is marked as a moon, lies in
    the plane [y = 0] of the mesh. *)
Definition level (child : Object3D) : Prop :=
  isMoon (userData child) = true -> THREE.y (position child) = 0.

(** Child number [j] of the mesh of planet number [i]. *)
Definition childAt (scene : Scene) (i j : nat) : option Object3D :=
  match nth_error (created scene) i with
  | Some obj => nth_error (children obj) j
  | None => None
  end.

(** A planet entry without its ring reference. *)
Definition sansRing (obj : Created) : Created := set_ring None obj.

(** A planet entry after a sequence of frames, the ring left aside. *)
Definition animateFor (frames : list Frame) (obj : Created) : Created :=
  fold_left (fun o f => animatePlanet (dt f) (multiplier f) o) frames obj.

(** A child of a planet mesh after a sequence of frames. *)
Definition animateChildFor (frames : list Frame) (child : Object3D)
  : Object3D :=
  fold_left (fun c f => animateChild (dt f) (multiplier f) c) frames child.

(** A planet entry without children and ring: the three nested frames. *)
Definition bare (obj : Created) : Created :=
  set_children [] (set_ring None obj).

(** The pebbles of the field the scene refers to. *)
Definition dustPebbles (scene : Scene) : list Pebble :=
  match spaceDust scene with
  | Some d => pebbles d
  | None => []
  end.

(** [params] with another time scale. *)
Definition withTimeScale (ts : option R) (P : Params) : Params :=
  mkParams (showOrbits P) ts (spaceDustEnabled P) (spaceDustCount P)
           (spaceDustSpeed P) (spaceDustSize P) (spaceDustSpread P)
           (spaceDustMinScale P) (spaceDustMaxScale P)
           (spaceDustRotSpeed P) (labelsEnabled P) (labelSize P).

(** [params] with the dust swarm switched on or off. *)
Definition withSpaceDustEnabled (b : bool) (P : Params) : Params :=
  mkParams (showOrbits P) (timeScale P) b (spaceDustCount P)
           (spaceDustSpeed P) (spaceDustSize P) (spaceDustSpread P)
           (spaceDustMinScale P) (spaceDustMaxScale P)
           (spaceDustRotSpeed P) (labelsEnabled P) (labelSize P).

(** The squared norm of a quaternion. *)
Definition lengthSq (q : THREE.Quaternion) : R :=
  THREE.qx q * THREE.qx q + THREE.qy q * THREE.qy q
  + THREE.qz q * THREE.qz q + THREE.qw q * THREE.qw q.

(** ** Concrete inputs *)

(** A source of random numbers that always answers one half. *)
Definition half : nat -> R := fun _ => 1 / 2.

Definition earth : PlanetData :=
  mkPlanetData "Earth" 1.0 18 0.005 23.5
    (Some [ mkMoonData "Moon" 0.27 2.5 0.015 ]).

Definition mercury : PlanetData :=
  mkPlanetData "Mercury" 0.40 8 0.02076050 0.034 (Some []).

Definition venus : PlanetData :=
  mkPlanetData "Venus" 0.95 12 0.00812760 177.3 (Some []).

(** One frame of one second with the initial settings and an unturned
    camera. *)
Definition oneSecond : Frame := mkFrame 1 params THREE.identity.

(** A scene that holds the Earth and its moon only. *)
Definition earthScene : Scene :=
  {| created := fst (attachAllMoons half [buildPlanetWithTilt earth] 0);
     asteroidBelt := None;
     spaceDust := None;
     _labels := None;
     drawn := 1 |}.

(** The options of the module's call of [createAsteroidBelt]. *)
Definition beltCall : BeltOptions :=
  mkBeltOptions (Some 28) (Some 33) (Some 2.0) (Some 2000%nat)
                (Some 0.04) (Some 0.18).

(** The Earth scene once the module has created the pebbles. *)
Definition dustScene : Scene := addSpaceDust half earthScene.

(** The field of that scene and its first pebble. *)
Definition theDust : Dust :=
  fst (createSpacePebbles half params (pebbleOptions params) 1).

Definition firstPebble : Pebble := newPebble half params 40 2 60 0.05 0.22 1.

(** One frame of one second while the "Space Dust" box is unticked. *)
Definition dustOff : Frame :=
  mkFrame 1 (withSpaceDustEnabled false params) THREE.identity.

Definition saturn : PlanetData :=
  mkPlanetData "Saturn" 4.6 58 0.00016964 26.7
    (Some [ mkMoonData "Titan" 0.40 4.0 0.00128921;
            mkMoonData "Rhea" 0.12 2.4 0.00361402 ]).

(** A scene that holds Saturn with its ring, and the asteroid belt. *)
Definition saturnScene : Scene :=
  {| created := fst (addSaturnRing half [buildPlanetWithTilt saturn] 0);
     asteroidBelt := Some (fst (createAsteroidBelt half beltCall 2800));
     spaceDust := None;
     _labels := None;
     drawn := snd (createAsteroidBelt half beltCall 2800) |}.

(** The first frame of the page: the clock answers 0 to its first
    [getDelta()]. *)
Definition firstFrame : Frame := mkFrame 0 params THREE.identity.

(** ** Notions used for the rest of the code *)

(** [params] with another dust size, and with another orbit toggle. *)
Definition withSpaceDustSize (sz : R) (P : Params) : Params :=
  mkParams (showOrbits P) (timeScale P) (spaceDustEnabled P)
           (spaceDustCount P) (spaceDustSpeed P) sz (spaceDustSpread P)
           (spaceDustMinScale P) (spaceDustMaxScale P)
           (spaceDustRotSpeed P) (labelsEnabled P) (labelSize P).

Definition withShowOrbits (b : bool) (P : Params) : Params :=
  mkParams b (timeScale P) (spaceDustEnabled P) (spaceDustCount P)
           (spaceDustSpeed P) (spaceDustSize P) (spaceDustSpread P)
           (spaceDustMinScale P) (spaceDustMaxScale P)
           (spaceDustRotSpeed P) (labelsEnabled P) (labelSize P).

(** The volume in front of the camera a field keeps its pebbles in:
    half the spread to each side, between the near and the far plane. *)
Definition inBox (d : Dust) (p : Pebble) : Prop :=
  - spread d / 2 <= THREE.x (pos p) <= spread d / 2 /\
  - spread d / 2 <= THREE.y (pos p) <= spread d / 2 /\
  - far d <= THREE.z (pos p) <= - near d.

(** The field of a scene, if there is one, is well formed and holds
    every pebble in its volume. *)
Definition dustInBox (scene : Scene) : Prop :=
  match spaceDust scene with
  | Some d => 0 <= spread d /\ near d <= far d /\ Forall (inBox d) (pebbles d)
  | None => True
  end.

(** A frame as the page delivers it: time does not run backwards and the
    sliders are not below zero. *)
Definition forward (f : Frame) : Prop :=
  0 <= dt f /\
  0 <= JS.nullish (timeScale (f_params f)) 1 /\
  0 <= spaceDustSpeed (f_params f) /\
  0 <= spaceDustSpread (f_params f).


(** The quaternion written for a pebble:
    [dummy.quaternion.setFromAxisAngle(rotAxis[i], rotAngle[i])]. *)
Definition pebbleQuaternion (p : Pebble) : THREE.Quaternion :=
  THREE.setFromAxisAngle (rotAxis p) (rotAngle p).

(** A scene that holds Venus and its label only. *)
Definition venusScene : Scene :=
  {| created := fst (addPlanetLabels params [buildPlanetWithTilt venus] 0);
     asteroidBelt := None;
     spaceDust := None;
     _labels := Some (snd (addPlanetLabels params
                             [buildPlanetWithTilt venus] 0));
     drawn := 0 |}.

(** [params] with the labels switched on or off, and with another label
    size. *)
Definition withLabels (b : bool) (sz : R) (P : Params) : Params :=
  mkParams (showOrbits P) (timeScale P) (spaceDustEnabled P)
           (spaceDustCount P) (spaceDustSpeed P) (spaceDustSize P)
           (spaceDustSpread P) (spaceDustMinScale P) (spaceDustMaxScale P)
           (spaceDustRotSpeed P) b sz.

(** *** Orbit lines *)

(** An orbit line: the points of its curve in the line's own frame (the
    XY plane), the line's rotation about X and its visibility. *)
Record OrbitLine : Type := mkOrbitLine {
  curve_points : list (R * R);
  line_rotation_x : R;
  line_visible : bool
}.

(** [new THREE.EllipseCurve(0, 0, r, r, 0, 2 * Math.PI).getPoint(t)]. *)
Definition ellipsePoint (r t : R) : R * R :=
  let angle := 0 + t * (2 * PI - 0) in
  (0 + r * cos angle, 0 + r * sin angle).

(** [curve.getPoints(divisions)]: the points at [d / divisions],
    [d = 0 .. divisions]. *)
Definition getPoints (r : R) (divisions : nat) : list (R * R) :=
  map (fun d => ellipsePoint r (INR d / INR divisions))
      (seq 0 (S divisions)).

(** The line [addOrbitLines] makes for one planet. *)
Definition orbitLine (obj : Created) : OrbitLine :=
  {| curve_points := getPoints (distance (data obj)) 240;
     line_rotation_x := PI / 2;
     line_visible := true |}.

(** [addOrbitLines]: [scene.userData.orbits] is emptied and gets one
    line per entry, each also added to the entry's tilt group. *)
Definition addOrbitLines (createdList : list Created) : list OrbitLine :=
  map orbitLine createdList.

(** The change handler of the "Show Orbits" binding, on
    [scene.userData.orbits]; the list is [undefined] until
    [addOrbitLines] has run, and the handler then throws. *)
Definition showOrbitsChanged (value : bool)
  (orbits : option (list OrbitLine)) : option (list OrbitLine) :=
  match orbits with
  | Some l =>
      Some (map (fun orbit => mkOrbitLine (curve_points orbit)
                                          (line_rotation_x orbit) value) l)
  | None => None
  end.

(** Where a point of a line's curve lies in the frame of the tilt group
    that holds the line: the point [(x, y, 0)] turned about X. *)
Definition inTiltGroup (l : OrbitLine) (pt : R * R) : THREE.Vector3 :=
  THREE.mkVector3 (fst pt)
                  (snd pt * cos (line_rotation_x l))
                  (snd pt * sin (line_rotation_x l)).

(** * Properties *)

(** ** JavaScript operators *)

Lemma or_nonzero (x d : R) : x <> 0 -> JS.or x d = x.
Proof.
  intros Hx. unfold JS.or, JS.truthy.
  destruct (Req_dec_T x 0); [contradiction | reflexivity].
Qed.

Lemma or_zero (d : R) : JS.or 0 d = d.
Proof.
  unfold JS.or, JS.truthy.
  destruct (Req_dec_T 0 0) as [_ | H]; [reflexivity | now elim H].
Qed.

Lemma or_default_zero (x : R) : JS.or x 0 = x.
Proof.
  unfold JS.or, JS.truthy.
  destruct (Req_dec_T x 0) as [-> | _]; reflexivity.
Qed.

Lemma gt_true (a b : R) : a > b -> JS.gt a b = true.
Proof.
  intros H. unfold JS.gt. destruct (Rgt_dec a b); [reflexivity | contradiction].
Qed.

Lemma gt_false (a b : R) : ~ a > b -> JS.gt a b = false.
Proof.
  intros H. unfold JS.gt. destruct (Rgt_dec a b); [contradiction | reflexivity].
Qed.

Lemma gt_spec (a b : R) : JS.gt a b = true <-> a > b.
Proof.
  unfold JS.gt. destruct (Rgt_dec a b); split; intros H;
    try reflexivity; try assumption; try discriminate; contradiction.
Qed.

Lemma neq_refl (a : R) : JS.neq a a = false.
Proof.
  unfold JS.neq. destruct (Req_dec_T a a) as [_ | H]; [reflexivity | now elim H].
Qed.

(** ** Rotations about the Y axis *)

Lemma half_sum (a b : R) : (a + b) / 2 = a / 2 + b / 2.
Proof. lra. Qed.

(** Turning a Y rotation of [a] by [b] about local Y gives the Y rotation
    of [a + b]: the angle of self-rotation is additive. *)
Lemma rotateY_spinY (a b : R) :
  THREE.rotateY (spinY a) b = spinY (a + b).
Proof.
  unfold THREE.rotateY, spinY, THREE.setFromAxisAngle,
    THREE.multiplyQuaternions; cbn.
  rewrite half_sum, sin_plus, cos_plus.
  f_equal; ring.
Qed.

Lemma spinY_0 : spinY 0 = THREE.identity.
Proof.
  unfold spinY, THREE.setFromAxisAngle, THREE.identity; cbn.
  replace (0 / 2) with 0 by lra.
  rewrite sin_0, cos_0. f_equal; ring.
Qed.

(** ** The planets' loop and the ring *)

Lemma sansRing_spinSaturnRing (t : R) (l : list Created) :
  map sansRing (spinSaturnRing t l) = map sansRing l.
Proof.
  induction l as [| c rest IH]; cbn; [reflexivity |].
  destruct (isSaturn c).
  - destruct (ring c); reflexivity.
  - cbn. now rewrite IH.
Qed.

(** Entry [i] of [created] after a frame is the animated entry [i], up
    to the ring reference. *)
Lemma renderLoop_created random (scene : Scene) (f : Frame) (i : nat)
  (obj : Created) :
  nth_error (created scene) i = Some obj ->
  exists obj',
    nth_error (created (renderLoop random scene f)) i = Some obj' /\
    sansRing obj' = sansRing (animatePlanet (dt f) (multiplier f) obj).
Proof.
  intros Hi.
  assert (H : nth_error (map sansRing (created (renderLoop random scene f))) i
              = Some (sansRing (animatePlanet (dt f) (multiplier f) obj))).
  { unfold renderLoop.
    destruct (match spaceDust scene with Some _ => _ | None => _ end).
    cbn [created]. rewrite sansRing_spinSaturnRing, map_map.
    rewrite nth_error_map, Hi. reflexivity. }
  rewrite nth_error_map in H.
  destruct (nth_error (created (renderLoop random scene f)) i) as [obj' |];
    [| discriminate].
  exists obj'. split; [reflexivity |].
  exact (f_equal (fun o => match o with
                           | Some c => c
                           | None => sansRing obj'
                           end) H).
Qed.

Lemma sansRing_fields (a b : Created) :
  sansRing a = sansRing b ->
  data a = data b /\
  orbit_rotation_y a = orbit_rotation_y b /\
  tilt_rotation_z a = tilt_rotation_z b /\
  mesh_quaternion a = mesh_quaternion b /\
  children a = children b.
Proof.
  unfold sansRing, set_ring. intros H. injection H. intuition.
Qed.

(** ** Planets: self-rotation and revolution *)

(** C1.  In every frame, with elapsed time [dt f] and multiplier
    [multiplier f], every planet's mesh is turned about its own Y axis by
    exactly [speed * dt * m] (its quaternion is multiplied by that
    rotation, so a mesh that stands at the self-rotation angle [theta]
    stands at [theta + speed * dt * m] afterwards), its orbit
    group's angle grows by exactly [speed * dt * 0.2 * m], and the growth
    of the orbit angle is one fifth of the growth of the self-rotation
    angle. *)
Theorem planet_rotation_step random (scene : Scene) (f : Frame) (i : nat)
  (obj : Created) (theta : R) :
  nth_error (created scene) i = Some obj ->
  mesh_quaternion obj = spinY theta ->
  exists obj',
    nth_error (created (renderLoop random scene f)) i = Some obj' /\
    data obj' = data obj /\
    mesh_quaternion obj'
      = THREE.multiplyQuaternions
          (mesh_quaternion obj)
          (spinY (speed (data obj) * dt f * multiplier f)) /\
    mesh_quaternion obj'
      = spinY (theta + speed (data obj) * dt f * multiplier f) /\
    orbit_rotation_y obj'
      = orbit_rotation_y obj + speed (data obj) * dt f * 0.2 * multiplier f /\
    orbit_rotation_y obj' - orbit_rotation_y obj
      = (speed (data obj) * dt f * multiplier f) / 5.
Proof.
  intros Hi Hq.
  destruct (renderLoop_created random scene f i obj Hi) as (obj' & Hn & Hs).
  apply sansRing_fields in Hs.
  destruct Hs as (Hd & Ho & _ & Hm & _).
  exists obj'. cbn in Hd, Ho, Hm.
  repeat split; try assumption.
  - rewrite Hm, Hq. apply rotateY_spinY.
  - rewrite Ho. lra.
Qed.

Lemma planet_rotation_step_witness :
  exists obj',
    nth_error (created (renderLoop half earthScene oneSecond)) 0 = Some obj' /\
    data obj' = earth /\
    mesh_quaternion obj'
      = THREE.multiplyQuaternions THREE.identity (spinY (0.005 * 1 * 1.0)) /\
    mesh_quaternion obj' = spinY (0 + 0.005 * 1 * 1.0) /\
    orbit_rotation_y obj' = 0 + 0.005 * 1 * 0.2 * 1.0 /\
    orbit_rotation_y obj' - 0 = (0.005 * 1 * 1.0) / 5.
Proof.
  exact (planet_rotation_step half earthScene oneSecond 0 _ 0
           eq_refl (eq_sym spinY_0)).
Defined.

(** ** Sequences of frames *)

Lemma run_cons random (scene : Scene) (f : Frame) (rest : list Frame) :
  run random scene (f :: rest) = run random (renderLoop random scene f) rest.
Proof. reflexivity. Qed.

Lemma renderLoop_sansRing random (scene : Scene) (f : Frame) :
  map sansRing (created (renderLoop random scene f))
  = map (fun obj => sansRing (animatePlanet (dt f) (multiplier f) obj))
        (created scene).
Proof.
  unfold renderLoop.
  destruct (match spaceDust scene with Some _ => _ | None => _ end).
  cbn [created]. now rewrite sansRing_spinSaturnRing, map_map.
Qed.

Lemma animateFor_sansRing (frames : list Frame) : forall obj,
  sansRing (animateFor frames obj) = animateFor frames (sansRing obj).
Proof.
  induction frames as [| f rest IH]; intros obj; [reflexivity |].
  cbn. now rewrite IH.
Qed.

Lemma run_sansRing random (frames : list Frame) : forall scene,
  map sansRing (created (run random scene frames))
  = map (fun obj => sansRing (animateFor frames obj)) (created scene).
Proof.
  induction frames as [| f rest IH]; intros scene.
  - reflexivity.
  - rewrite run_cons, IH.
    rewrite (map_ext _ (fun obj => animateFor rest (sansRing obj)))
      by (intros; apply animateFor_sansRing).
    rewrite <- (map_map sansRing (animateFor rest)).
    rewrite renderLoop_sansRing, map_map.
    apply map_ext. intros obj. cbn.
    now rewrite <- animateFor_sansRing.
Qed.

(** Entry [i] of [created] after a sequence of frames. *)
Lemma run_created random (scene : Scene) (frames : list Frame) (i : nat)
  (obj : Created) :
  nth_error (created scene) i = Some obj ->
  exists obj',
    nth_error (created (run random scene frames)) i = Some obj' /\
    sansRing obj' = sansRing (animateFor frames obj).
Proof.
  intros Hi.
  assert (H : nth_error (map sansRing (created (run random scene frames))) i
              = Some (sansRing (animateFor frames obj))).
  { rewrite run_sansRing, nth_error_map, Hi. reflexivity. }
  rewrite nth_error_map in H.
  destruct (nth_error (created (run random scene frames)) i) as [obj' |];
    [| discriminate].
  exists obj'. split; [reflexivity |].
  exact (f_equal (fun o => match o with
                           | Some c => c
                           | None => sansRing obj'
                           end) H).
Qed.

(** What a sequence of frames does to the fields of a planet entry. *)
Lemma animateFor_fields (frames : list Frame) : forall obj,
  data (animateFor frames obj) = data obj /\
  tilt_rotation_z (animateFor frames obj) = tilt_rotation_z obj /\
  orbit_rotation_y (animateFor frames obj)
    = orbit_rotation_y obj + speed (data obj) * 0.2 * elapsed frames /\
  children (animateFor frames obj)
    = map (animateChildFor frames) (children obj) /\
  forall theta, mesh_quaternion obj = spinY theta ->
    mesh_quaternion (animateFor frames obj)
      = spinY (theta + speed (data obj) * elapsed frames).
Proof.
  induction frames as [| f rest IH]; intros obj.
  - cbn. repeat split.
    + lra.
    + now rewrite map_id.
    + intros theta ->. f_equal. lra.
  - cbn [animateFor fold_left elapsed].
    destruct (IH (animatePlanet (dt f) (multiplier f) obj))
      as (Hd & Ht & Ho & Hc & Hq).
    fold (animateFor rest (animatePlanet (dt f) (multiplier f) obj)).
    rewrite Hd, Ht, Ho, Hc. cbn [data tilt_rotation_z orbit_rotation_y
                                 children animatePlanet].
    repeat split.
    + lra.
    + rewrite map_map. reflexivity.
    + intros theta Hth.
      rewrite (Hq (theta + speed (data obj) * dt f * multiplier f)).
      * cbn [data animatePlanet]. f_equal. lra.
      * cbn [mesh_quaternion animatePlanet]. rewrite Hth.
        apply rotateY_spinY.
Qed.

(** ** The assembled scene *)

Lemma bare_addMoons random (ms : list MoonData) : forall ch k obj,
  bare (set_children (fst (addMoons random ms ch k)) obj) = bare obj.
Proof. intros. reflexivity. Qed.

Lemma bare_attachMoons random (obj : Created) (k : nat) :
  bare (fst (attachMoons random obj k)) = bare obj.
Proof.
  unfold attachMoons. destruct (moons (data obj)) as [ms |]; [| reflexivity].
  destruct (addMoons random ms (children obj) k). reflexivity.
Qed.

Lemma bare_attachAllMoons random (l : list Created) : forall k,
  map bare (fst (attachAllMoons random l k)) = map bare l.
Proof.
  induction l as [| obj rest IH]; intros k; [reflexivity |].
  cbn [attachAllMoons].
  pose proof (bare_attachMoons random obj k) as Hb.
  destruct (attachMoons random obj k) as [obj' k'].
  specialize (IH k').
  destruct (attachAllMoons random rest k') as [rest' k''].
  cbn in *. now rewrite Hb, IH.
Qed.

Lemma bare_addPlanetLabels (P : Params) (l : list Created) : forall i,
  map bare (fst (addPlanetLabels P l i)) = map bare l.
Proof.
  induction l as [| obj rest IH]; intros i; [reflexivity |].
  cbn [addPlanetLabels]. specialize (IH (S i)).
  destruct (addPlanetLabels P rest (S i)) as [rest' recs].
  cbn in *. now rewrite IH.
Qed.

Lemma bare_addSaturnRing random (l : list Created) : forall k,
  map bare (fst (addSaturnRing random l k)) = map bare l.
Proof.
  induction l as [| c rest IH]; intros k; [reflexivity |].
  cbn [addSaturnRing]. destruct (isSaturn c).
  - reflexivity.
  - specialize (IH k). destruct (addSaturnRing random rest k) as [rest' k'].
    cbn in *. now rewrite IH.
Qed.

Lemma created_addSpaceDust random (scene : Scene) :
  created (addSpaceDust random scene) = created scene.
Proof.
  unfold addSpaceDust. destruct (spaceDust scene); [reflexivity |].
  destruct (createSpacePebbles random params (pebbleOptions params)
              (drawn scene)). reflexivity.
Qed.

(** Children and ring apart, the entries of [created] are what
    [buildPlanetWithTilt] returned for the planets, in order. *)
Lemma assemble_bare random :
  map bare (created (assemble random)) = map buildPlanetWithTilt planets.
Proof.
  unfold assemble.
  pose proof (bare_attachAllMoons random (map buildPlanetWithTilt planets)
                0%nat) as H1.
  destruct (attachAllMoons random (map buildPlanetWithTilt planets) 0)
    as [created1 k1].
  pose proof (bare_addPlanetLabels params created1 0%nat) as H2.
  destruct (addPlanetLabels params created1 0) as [created2 labels].
  destruct (createAsteroidBelt random _ k1) as [belt k2].
  pose proof (bare_addSaturnRing random created2 k2) as H3.
  destruct (addSaturnRing random created2 k2) as [created3 k3].
  cbn [created fst] in *.
  rewrite H3, H2, H1, map_map. apply map_ext. reflexivity.
Qed.

Lemma animateFor_bare (frames : list Frame) : forall obj,
  bare (animateFor frames obj) = animateFor frames (bare obj).
Proof.
  induction frames as [| f rest IH]; intros obj; [reflexivity |].
  cbn. now rewrite IH.
Qed.

Lemma run_bare random (frames : list Frame) (scene : Scene) :
  map bare (created (run random scene frames))
  = map (animateFor frames) (map bare (created scene)).
Proof.
  transitivity (map bare (map sansRing (created (run random scene frames)))).
  { rewrite map_map. apply map_ext. reflexivity. }
  rewrite run_sansRing, !map_map. apply map_ext. intros obj.
  rewrite <- animateFor_bare.
  reflexivity.
Qed.

(** The planet entries of the running program, children and ring apart. *)
Lemma program_bare random (frames : list Frame) :
  map bare (created (run random (addSpaceDust random (assemble random))
                         frames))
  = map (fun p => animateFor frames (buildPlanetWithTilt p)) planets.
Proof.
  rewrite run_bare, created_addSpaceDust, assemble_bare, map_map.
  reflexivity.
Qed.

Lemma buildPlanetWithTilt_tilt (p : PlanetData) :
  tilt_rotation_z (buildPlanetWithTilt p) = tilt p * PI / 180.
Proof. cbn. now rewrite or_default_zero. Qed.

(** C8.  The tilt group's rotation is the planet's tilt in degrees turned
    into radians, set when the planet is built; no sequence of frames
    changes it, in any scene.  In the running program, after any number
    of frames, every tilt rotation still has that value, while the orbit
    angles and the self-rotation angles have accumulated the scaled time
    elapsed. *)
Theorem tilt_never_mutated random :
  (forall p, tilt_rotation_z (buildPlanetWithTilt p) = tilt p * PI / 180) /\
  (forall scene frames,
     map tilt_rotation_z (created (run random scene frames))
     = map tilt_rotation_z (created scene)) /\
  (forall frames,
     let scene :=
       run random (addSpaceDust random (assemble random)) frames in
     map tilt_rotation_z (created scene)
       = map (fun p => tilt p * PI / 180) planets /\
     map orbit_rotation_y (created scene)
       = map (fun p => speed p * 0.2 * elapsed frames) planets /\
     map mesh_quaternion (created scene)
       = map (fun p => spinY (speed p * elapsed frames)) planets).
Proof.
  split; [exact buildPlanetWithTilt_tilt |].
  split.
  - intros scene frames.
    transitivity (map tilt_rotation_z
                    (map bare (created (run random scene frames)))).
    { rewrite map_map. apply map_ext. reflexivity. }
    rewrite run_bare, !map_map. apply map_ext. intros obj.
    destruct (animateFor_fields frames (bare obj)) as (_ & Ht & _).
    rewrite Ht. reflexivity.
  - intros frames scene.
    pose proof (program_bare random frames) as H. fold scene in H.
    repeat split.
    + transitivity (map tilt_rotation_z (map bare (created scene))).
      { rewrite map_map. apply map_ext. reflexivity. }
      rewrite H, map_map. apply map_ext. intros p.
      destruct (animateFor_fields frames (buildPlanetWithTilt p))
        as (_ & Ht & _).
      rewrite Ht. apply buildPlanetWithTilt_tilt.
    + transitivity (map orbit_rotation_y (map bare (created scene))).
      { rewrite map_map. apply map_ext. reflexivity. }
      rewrite H, map_map. apply map_ext. intros p.
      destruct (animateFor_fields frames (buildPlanetWithTilt p))
        as (_ & _ & Ho & _).
      rewrite Ho. cbn. lra.
    + transitivity (map mesh_quaternion (map bare (created scene))).
      { rewrite map_map. apply map_ext. reflexivity. }
      rewrite H, map_map. apply map_ext. intros p.
      destruct (animateFor_fields frames (buildPlanetWithTilt p))
        as (_ & _ & _ & _ & Hq).
      rewrite (Hq 0).
      * cbn. f_equal. lra.
      * cbn. symmetry. apply spinY_0.
Qed.

(** ** Moons *)

Lemma childAt_run random (scene : Scene) (frames : list Frame) (i j : nat)
  (child : Object3D) :
  childAt scene i j = Some child ->
  childAt (run random scene frames) i j
  = Some (animateChildFor frames child).
Proof.
  unfold childAt. intros H.
  destruct (nth_error (created scene) i) as [obj |] eqn:Hi; [| discriminate].
  destruct (run_created random scene frames i obj Hi) as (obj' & -> & Hs).
  apply sansRing_fields in Hs. destruct Hs as (_ & _ & _ & _ & Hc).
  destruct (animateFor_fields frames obj) as (_ & _ & _ & Hch & _).
  rewrite Hc, Hch, nth_error_map, H. reflexivity.
Qed.

(** One frame applied to a moon. *)
Lemma animateChild_moon (dt t : R) (child : Object3D) (mo : Orbit) :
  isMoon (userData child) = true ->
  orbit (userData child) = Some mo ->
  animateChild dt t child
  = let angle' := angle mo + o_speed mo * dt * t in
    {| position := THREE.mkVector3 (sin angle' * o_distance mo)
                                   (THREE.y (position child))
                                   (cos angle' * o_distance mo);
       scale := scale child;
       userData := mkUserData true
                     (Some (mkOrbit (o_distance mo) (o_speed mo) angle')) |}.
Proof.
  intros Hm Ho. unfold animateChild. rewrite Hm, Ho. reflexivity.
Qed.

(** A child that is not a moon is never touched. *)
Lemma animateChild_other (dt t : R) (child : Object3D) :
  isMoon (userData child) = false -> animateChild dt t child = child.
Proof. intros Hm. unfold animateChild. now rewrite Hm. Qed.

(** A sequence of frames, the first of which is [f], applied to a moon:
    the phase has grown by the scaled time elapsed and the moon sits at
    the point of its circle the final phase designates. *)
Lemma animateChildFor_moon (later : list Frame) :
  forall (f : Frame) (child : Object3D) (mo : Orbit),
  isMoon (userData child) = true ->
  orbit (userData child) = Some mo ->
  exists phase,
    phase = angle mo + o_speed mo * elapsed (f :: later) /\
    animateChildFor (f :: later) child
    = {| position := THREE.mkVector3 (sin phase * o_distance mo)
                                     (THREE.y (position child))
                                     (cos phase * o_distance mo);
         scale := scale child;
         userData := mkUserData true
                       (Some (mkOrbit (o_distance mo) (o_speed mo) phase)) |}.
Proof.
  induction later as [| g rest IH]; intros f child mo Hm Ho.
  - exists (angle mo + o_speed mo * dt f * multiplier f). split.
    + cbn. lra.
    + cbn. now apply animateChild_moon.
  - cbn [animateChildFor fold_left].
    rewrite (animateChild_moon _ _ _ _ Hm Ho). cbv zeta.
    set (child1 := mkObject3D _ _ _).
    destruct (IH g child1 (mkOrbit (o_distance mo) (o_speed mo)
                 (angle mo + o_speed mo * dt f * multiplier f))
                eq_refl eq_refl) as (phase & Hp & Heq).
    exists phase. split.
    + rewrite Hp. cbn. lra.
    + exact Heq.
Qed.

(** A frame changes neither the mark nor the height of a child. *)
Lemma animateChild_keeps (dt t : R) (child : Object3D) :
  isMoon (userData (animateChild dt t child)) = isMoon (userData child) /\
  THREE.y (position (animateChild dt t child)) = THREE.y (position child).
Proof.
  unfold animateChild.
  destruct (isMoon (userData child)) eqn:Hm;
    destruct (orbit (userData child)); cbn; rewrite ?Hm; split; reflexivity.
Qed.

Lemma animateChildFor_level (frames : list Frame) : forall child,
  level child -> level (animateChildFor frames child).
Proof.
  induction frames as [| f rest IH]; intros child H; [exact H |].
  cbn [animateChildFor fold_left]. apply IH.
  destruct (animateChild_keeps (dt f) (multiplier f) child) as (Hm & Hy).
  unfold level. rewrite Hm, Hy. exact H.
Qed.

(** Every child found after a sequence of frames is the animated form of
    the child that was at its place before. *)
Lemma childAt_run_inv random (scene : Scene) (frames : list Frame)
  (i j : nat) (child' : Object3D) :
  childAt (run random scene frames) i j = Some child' ->
  exists child,
    childAt scene i j = Some child /\
    child' = animateChildFor frames child.
Proof.
  unfold childAt. intros H.
  pose proof (run_sansRing random frames scene) as Hs.
  apply (f_equal (fun l => nth_error l i)) in Hs.
  rewrite !nth_error_map in Hs.
  destruct (nth_error (created (run random scene frames)) i) as [obj' |];
    [| discriminate].
  destruct (nth_error (created scene) i) as [obj |]; [| discriminate].
  assert (He : sansRing obj' = sansRing (animateFor frames obj)).
  { exact (f_equal (fun o => match o with
                             | Some c => c
                             | None => sansRing obj'
                             end) Hs). }
  apply sansRing_fields in He. destruct He as (_ & _ & _ & _ & Hc).
  destruct (animateFor_fields frames obj) as (_ & _ & _ & Hch & _).
  rewrite Hc, Hch, nth_error_map in H.
  destruct (nth_error (children obj) j) as [child |]; [| discriminate].
  exists child. split; [reflexivity |]. now injection H.
Qed.

Lemma addMoons_level random (ms : list MoonData) : forall ch k,
  Forall level ch -> Forall level (fst (addMoons random ms ch k)).
Proof.
  induction ms as [| m rest IH]; intros ch k H; [exact H |].
  cbn [addMoons]. apply IH. apply Forall_app. split; [exact H |].
  constructor; [| constructor]. intros _. reflexivity.
Qed.

Lemma attachAllMoons_level random (l : list Created) : forall k,
  Forall (fun obj => Forall level (children obj)) l ->
  Forall (fun obj => Forall level (children obj))
         (fst (attachAllMoons random l k)).
Proof.
  induction l as [| obj rest IH]; intros k H; [constructor |].
  inversion H as [| ? ? Ho Hr]; subst. cbn [attachAllMoons].
  assert (Ha : Forall level (children (fst (attachMoons random obj k)))).
  { unfold attachMoons. destruct (moons (data obj)) as [ms |]; [| exact Ho].
    pose proof (addMoons_level random ms (children obj) k Ho) as Hm.
    destruct (addMoons random ms (children obj) k). exact Hm. }
  destruct (attachMoons random obj k) as [obj' k'].
  specialize (IH k' Hr).
  destruct (attachAllMoons random rest k') as [rest' k''].
  constructor; assumption.
Qed.

Lemma addPlanetLabels_level (P : Params) (l : list Created) : forall i,
  Forall (fun obj => Forall level (children obj)) l ->
  Forall (fun obj => Forall level (children obj))
         (fst (addPlanetLabels P l i)).
Proof.
  induction l as [| obj rest IH]; intros i H; [constructor |].
  inversion H as [| ? ? Ho Hr]; subst. cbn [addPlanetLabels].
  specialize (IH (S i) Hr).
  destruct (addPlanetLabels P rest (S i)) as [rest' recs].
  constructor; [| exact IH].
  cbn. apply Forall_app. split; [exact Ho |].
  constructor; [| constructor]. intros Hm. discriminate Hm.
Qed.

Lemma addSaturnRing_level random (l : list Created) : forall k,
  Forall (fun obj => Forall level (children obj)) l ->
  Forall (fun obj => Forall level (children obj))
         (fst (addSaturnRing random l k)).
Proof.
  induction l as [| c rest IH]; intros k H; [constructor |].
  inversion H as [| ? ? Ho Hr]; subst. cbn [addSaturnRing].
  destruct (isSaturn c).
  - constructor; [| exact Hr].
    cbn. apply Forall_app. split; [exact Ho |].
    constructor; [| constructor]. intros Hm. discriminate Hm.
  - specialize (IH k Hr).
    destruct (addSaturnRing random rest k) as [rest' k'].
    constructor; assumption.
Qed.

(** In the scene the module assembles every moon lies in the plane
    [y = 0] of its planet's mesh. *)
Lemma assemble_level random :
  Forall (fun obj => Forall level (children obj))
         (created (assemble random)).
Proof.
  unfold assemble.
  assert (H0 : Forall (fun obj => Forall level (children obj))
                      (map buildPlanetWithTilt planets)).
  { apply Forall_map. apply Forall_forall. intros p _. constructor. }
  pose proof (attachAllMoons_level random _ 0%nat H0) as H1.
  destruct (attachAllMoons random (map buildPlanetWithTilt planets) 0)
    as [created1 k1].
  pose proof (addPlanetLabels_level params created1 0%nat H1) as H2.
  destruct (addPlanetLabels params created1 0) as [created2 labels].
  destruct (createAsteroidBelt random _ k1) as [belt k2].
  pose proof (addSaturnRing_level random created2 k2 H2) as H3.
  destruct (addSaturnRing random created2 k2) as [created3 k3].
  exact H3.
Qed.

(** In the running program every moon stays in that plane. *)
Lemma program_level random (frames : list Frame) (i j : nat)
  (child : Object3D) :
  childAt (run random (addSpaceDust random (assemble random)) frames) i j
    = Some child ->
  level child.
Proof.
  intros H. apply childAt_run_inv in H. destruct H as (c & Hc & ->).
  apply animateChildFor_level.
  unfold childAt in Hc. rewrite created_addSpaceDust in Hc.
  destruct (nth_error (created (assemble random)) i) as [obj |] eqn:Hi;
    [| discriminate].
  pose proof (assemble_level random) as Hl.
  rewrite Forall_forall in Hl.
  specialize (Hl obj (nth_error_In _ _ Hi)).
  rewrite Forall_forall in Hl.
  exact (Hl c (nth_error_In _ _ Hc)).
Qed.

(** C2.  Over any sequence of frames [f :: later], every moon keeps its
    mark and its orbit parameters, its phase has grown by exactly
    [speed * dt * m] for each frame (it is the start phase plus the speed
    times the scaled time elapsed: never wrapped, never reset), and its
    position is [(sin phase * distance, y, cos phase * distance)] for the
    final phase, with the height [y] it was given when attached; so
    [x^2 + z^2 = distance^2].  The height is 0 for every moon mesh the
    assembly makes, and for every moon of the running program after any
    number of frames. *)
Theorem moon_orbit random (scene : Scene) (f : Frame) (later : list Frame)
  (i j : nat) (child : Object3D) (mo : Orbit) :
  childAt scene i j = Some child ->
  isMoon (userData child) = true ->
  orbit (userData child) = Some mo ->
  exists child' phase,
    childAt (run random scene (f :: later)) i j = Some child' /\
    phase = angle mo + o_speed mo * (dt f * multiplier f + elapsed later) /\
    isMoon (userData child') = true /\
    orbit (userData child')
      = Some (mkOrbit (o_distance mo) (o_speed mo) phase) /\
    position child'
      = THREE.mkVector3 (sin phase * o_distance mo)
                        (THREE.y (position child))
                        (cos phase * o_distance mo) /\
    THREE.x (position child') * THREE.x (position child')
      + THREE.z (position child') * THREE.z (position child')
      = o_distance mo * o_distance mo /\
    (forall m k, THREE.y (position (moonMesh random m k)) = 0) /\
    (forall frames i' j' c,
       childAt (run random (addSpaceDust random (assemble random)) frames)
               i' j' = Some c ->
       isMoon (userData c) = true ->
       THREE.y (position c) = 0).
Proof.
  intros Hc Hm Ho.
  destruct (animateChildFor_moon later f child mo Hm Ho) as (phase & Hp & Heq).
  exists (animateChildFor (f :: later) child), phase.
  split; [now apply childAt_run |].
  split; [exact Hp |].
  rewrite Heq. cbn [userData isMoon orbit position THREE.x THREE.z].
  split; [reflexivity |].
  split; [reflexivity |].
  split; [reflexivity |].
  split.
  { pose proof (sin2_cos2 phase) as H. unfold Rsqr in H.
    replace (sin phase * o_distance mo * (sin phase * o_distance mo)
             + cos phase * o_distance mo * (cos phase * o_distance mo))
      with ((sin phase * sin phase + cos phase * cos phase)
            * (o_distance mo * o_distance mo)) by ring.
    rewrite H. ring. }
  split; [intros m k; reflexivity |].
  intros frames i' j' c Hc' Hm'.
  exact (program_level random frames i' j' c Hc' Hm').
Qed.

Lemma moon_orbit_witness :
  exists child' phase,
    childAt (run half earthScene [oneSecond]) 0 0 = Some child' /\
    phase = 1 / 2 * PI * 2 + 0.015 * (1 * 1.0 + 0) /\
    isMoon (userData child') = true /\
    orbit (userData child') = Some (mkOrbit 2.5 0.015 phase) /\
    position child'
      = THREE.mkVector3 (sin phase * 2.5) 0 (cos phase * 2.5) /\
    THREE.x (position child') * THREE.x (position child')
      + THREE.z (position child') * THREE.z (position child')
      = 2.5 * 2.5 /\
    (forall m k, THREE.y (position (moonMesh half m k)) = 0) /\
    (forall frames i' j' c,
       childAt (run half (addSpaceDust half (assemble half)) frames)
               i' j' = Some c ->
       isMoon (userData c) = true ->
       THREE.y (position c) = 0).
Proof.
  exact (moon_orbit half earthScene oneSecond [] 0 0 _ _
           eq_refl eq_refl eq_refl).
Defined.

(** ** The asteroid belt *)

Lemma beltInstances_nth random (a b th mn mx : R) (count : nat) :
  forall (k i : nat) (inst : Instance),
  nth_error (beltInstances random a b th mn mx count k) i = Some inst ->
  inst = beltInstance random a b th mn mx (k + 8 * i).
Proof.
  induction count as [| n IH]; intros k i inst H.
  - destruct i; discriminate.
  - destruct i as [| i]; cbn [beltInstances nth_error] in H.
    + injection H as <-. f_equal. lia.
    + apply IH in H. rewrite H. f_equal. lia.
Qed.

(** The square of the sampled radius is affine in [u]. *)
Lemma beltRadius_square (a b u : R) :
  0 <= a <= b -> 0 <= u ->
  beltRadius a b u * beltRadius a b u = u * (b * b - a * a) + a * a.
Proof.
  intros Hab Hu. unfold beltRadius. apply sqrt_sqrt.
  assert (0 <= b * b - a * a) by nra.
  assert (0 <= u * (b * b - a * a)) by (apply Rmult_le_pos; lra).
  nra.
Qed.

Lemma beltRadius_bounds (a b u : R) :
  0 <= a < b -> 0 <= u < 1 ->
  a <= beltRadius a b u < b.
Proof.
  intros Hab Hu. unfold beltRadius.
  assert (Hband : 0 < b * b - a * a) by nra.
  assert (Hlo : 0 <= u * (b * b - a * a)) by (apply Rmult_le_pos; lra).
  assert (Hhi : 0 < (1 - u) * (b * b - a * a))
    by (apply Rmult_lt_0_compat; lra).
  split.
  - apply Rle_trans with (sqrt (a * a)).
    + rewrite sqrt_square; lra.
    + apply sqrt_le_1; nra.
  - apply Rlt_le_trans with (sqrt (b * b)).
    + apply sqrt_lt_1; nra.
    + rewrite sqrt_square; lra.
Qed.

(** At [u = 1/2] between 28 and 33 the belt's radius is not the radius
    the linear formula gives. *)
Lemma beltRadius_not_linear :
  beltRadius 28 33 (1 / 2) <> ringRadius 28 33 (1 / 2).
Proof.
  intros H.
  pose proof (beltRadius_square 28 33 (1 / 2)) as Hs.
  rewrite H in Hs. unfold ringRadius in Hs. lra.
Qed.

Lemma renderLoop_belt random (scene : Scene) (f : Frame) :
  asteroidBelt (renderLoop random scene f)
  = spinBelt (dt f) (multiplier f) (asteroidBelt scene).
Proof.
  unfold renderLoop.
  destruct (match spaceDust scene with Some _ => _ | None => _ end).
  reflexivity.
Qed.

(** No sequence of frames touches the instances of the belt. *)
Lemma run_belt_instances random (frames : list Frame) : forall scene,
  option_map instances (asteroidBelt (run random scene frames))
  = option_map instances (asteroidBelt scene).
Proof.
  induction frames as [| f rest IH]; intros scene; [reflexivity |].
  rewrite run_cons, IH, renderLoop_belt.
  destruct (asteroidBelt scene); reflexivity.
Qed.

(** Strictly between the ends of the band the belt's radius lies above
    the radius the linear formula gives for the same draw. *)
Lemma beltRadius_above_linear (a b u : R) :
  0 <= a < b -> 0 < u < 1 ->
  ringRadius a b u < beltRadius a b u.
Proof.
  intros Hab Hu. unfold ringRadius, beltRadius.
  assert (Hw : 0 <= u * (b - a)) by (apply Rmult_le_pos; lra).
  assert (Hd : 0 < (b - a) * (b - a)) by (apply Rmult_lt_0_compat; lra).
  assert (Hg : 0 < u * (1 - u) * ((b - a) * (b - a))).
  { apply Rmult_lt_0_compat; [apply Rmult_lt_0_compat; lra | exact Hd]. }
  apply Rle_lt_trans
    with (sqrt ((a + u * (b - a)) * (a + u * (b - a)))).
  - rewrite sqrt_square; lra.
  - apply sqrt_lt_1_alt. split; [nra |].
    replace (u * (b * b - a * a) + a * a)
      with ((a + u * (b - a)) * (a + u * (b - a))
            + u * (1 - u) * ((b - a) * (b - a))) by ring.
    lra.
Qed.

(** C3.  Instance [i] of the belt is made from the draws [j .. j+7],
    [j = k + 8 * i], of its own.  It is placed at the distance [r + ecc]
    from the axis in the direction of the angle [2 PI] times draw [j],
    where [r = sqrt (u * (outer^2 - inner^2) + inner^2)] for the draw
    [u] of [0,1): the part of the annulus inside [r] has the fraction
    [u] of the annulus' area, and [r] lies between the two radii.  The
    jitter [ecc] is draw [j+2] less one half, times 3 percent of the
    band's width, so at most 1.5 percent of it.  The height is draw
    [j+3] less one half, times the thickness, hence within half the
    thickness; the scale is the least scale plus draw [j+4] times the
    width of the band of scales, hence within the band; the three Euler
    angles are the draws [j+5], [j+6] and [j+7] times [PI], hence in
    [0, PI).  The radius is not the linear one used for Saturn's ring:
    for every draw strictly between 0 and 1 it lies above it.  No
    sequence of frames changes the instances. *)
Theorem belt_sampling random (options : BeltOptions) (k i : nat)
  (inst : Instance) :
  let inner := JS.nullish (bo_innerRadius options) 28 in
  let outer := JS.nullish (bo_outerRadius options) 36 in
  let thickness := JS.nullish (bo_thickness options) 2.0 in
  let minScale := JS.nullish (bo_minScale options) 0.05 in
  let maxScale := JS.nullish (bo_maxScale options) 0.25 in
  let j := (k + 8 * i)%nat in
  let angle := random j * PI * 2 in
  let u := random (j + 1)%nat in
  let r := sqrt (u * (outer * outer - inner * inner) + inner * inner) in
  let ecc := (random (j + 2)%nat - 0.5) * (outer - inner) * 0.03 in
  (forall n, 0 <= random n < 1) ->
  0 <= inner < outer ->
  0 <= thickness ->
  minScale <= maxScale ->
  nth_error (instances (fst (createAsteroidBelt random options k))) i
    = Some inst ->
  THREE.x (i_position inst) = cos angle * (r + ecc) /\
  THREE.z (i_position inst) = sin angle * (r + ecc) /\
  PI * (r * r - inner * inner) = u * (PI * (outer * outer - inner * inner)) /\
  inner <= r < outer /\
  Rabs ecc <= 0.015 * (outer - inner) /\
  THREE.y (i_position inst) = (random (j + 3)%nat - 0.5) * thickness /\
  - thickness / 2 <= THREE.y (i_position inst) <= thickness / 2 /\
  i_scale inst = minScale + random (j + 4)%nat * (maxScale - minScale) /\
  minScale <= i_scale inst <= maxScale /\
  i_rotation inst
  = THREE.mkVector3 (random (j + 5)%nat * PI) (random (j + 6)%nat * PI)
                    (random (j + 7)%nat * PI) /\
  0 <= THREE.x (i_rotation inst) < PI /\
  0 <= THREE.y (i_rotation inst) < PI /\
  0 <= THREE.z (i_rotation inst) < PI /\
  (forall a b v,
     0 <= a < b -> 0 < v < 1 -> ringRadius a b v < beltRadius a b v) /\
  beltRadius 28 33 (1 / 2) <> ringRadius 28 33 (1 / 2) /\
  (forall scene frames,
     option_map instances (asteroidBelt (run random scene frames))
     = option_map instances (asteroidBelt scene)).
Proof.
  intros inner outer thickness minScale maxScale j angle u r ecc
    Hr Hio Hth Hs Hn.
  cbn [createAsteroidBelt fst instances] in Hn.
  apply beltInstances_nth in Hn.
  fold inner outer thickness minScale maxScale j in Hn.
  pose proof PI_RGT_0 as Hpi.
  assert (Hpos : forall n, 0 <= random n * PI < PI).
  { intros n. specialize (Hr n). split; nra. }
  pose proof (Hr (j + 1)%nat) as Hu. fold u in Hu.
  pose proof (Hr (j + 2)%nat) as He.
  pose proof (Hr (j + 3)%nat) as Hy.
  pose proof (Hr (j + 4)%nat) as Hsc.
  pose proof (beltRadius_bounds inner outer u Hio Hu) as Hb.
  pose proof (beltRadius_square inner outer u) as Hsq.
  fold r in Hb. unfold beltRadius in Hsq. fold r in Hsq.
  rewrite Hn.
  cbn [beltInstance i_position i_scale i_rotation THREE.x THREE.y THREE.z].
  split; [reflexivity |].
  split; [reflexivity |].
  split; [rewrite Hsq by lra; ring |].
  split; [exact Hb |].
  split; [unfold ecc; apply Rabs_le; split; nra |].
  split; [reflexivity |].
  split; [split; nra |].
  split; [reflexivity |].
  split; [split; nra |].
  split; [reflexivity |].
  split; [apply Hpos |].
  split; [apply Hpos |].
  split; [apply Hpos |].
  split; [exact beltRadius_above_linear |].
  split; [exact beltRadius_not_linear |].
  intros scene frames. apply run_belt_instances.
Qed.

Lemma half_range : forall n, 0 <= half n < 1.
Proof. intros n. unfold half. lra. Qed.

Lemma belt_sampling_witness :
  nth_error (instances (fst (createAsteroidBelt half beltCall 0))) 0
    = Some (beltInstance half 28 33 2.0 0.04 0.18 0) /\
  THREE.y (i_position (beltInstance half 28 33 2.0 0.04 0.18 0))
  = (1 / 2 - 0.5) * 2.0 /\
  i_scale (beltInstance half 28 33 2.0 0.04 0.18 0)
  = 0.04 + 1 / 2 * (0.18 - 0.04) /\
  0.04 <= i_scale (beltInstance half 28 33 2.0 0.04 0.18 0) <= 0.18 /\
  i_rotation (beltInstance half 28 33 2.0 0.04 0.18 0)
  = THREE.mkVector3 (1 / 2 * PI) (1 / 2 * PI) (1 / 2 * PI) /\
  0 <= THREE.x (i_rotation (beltInstance half 28 33 2.0 0.04 0.18 0)) < PI.
Proof.
  assert (H1 : 0 <= JS.nullish (bo_innerRadius beltCall) 28
               < JS.nullish (bo_outerRadius beltCall) 36) by (cbn; lra).
  assert (H2 : 0 <= JS.nullish (bo_thickness beltCall) 2.0) by (cbn; lra).
  assert (H3 : JS.nullish (bo_minScale beltCall) 0.05
               <= JS.nullish (bo_maxScale beltCall) 0.25) by (cbn; lra).
  destruct (belt_sampling half beltCall 0 0
              (beltInstance half 28 33 2.0 0.04 0.18 0)
              half_range H1 H2 H3 eq_refl)
    as (_ & _ & _ & _ & _ & Hy & _ & Hs & Hsb & Hrot & Hx & _).
  split; [reflexivity |].
  split; [exact Hy |].
  split; [exact Hs |].
  split; [exact Hsb |].
  split; [exact Hrot | exact Hx].
Defined.

(** ** The near-camera pebbles *)

Lemma movePebble_drawn random (dustObj : Dust) (dtMove dt : R) (p : Pebble)
  (k : nat) :
  (k <= snd (movePebble random dustObj dtMove dt p k))%nat.
Proof.
  unfold movePebble.
  destruct (JS.gt (THREE.z (pos p) + dtMove) (- near dustObj)); cbn; lia.
Qed.

Lemma movePebbles_drawn random (dustObj : Dust) (dtMove dt : R)
  (ps : list Pebble) : forall k,
  (k <= snd (movePebbles random dustObj dtMove dt ps k))%nat.
Proof.
  induction ps as [| p rest IH]; intros k; cbn [movePebbles]; [cbn; lia |].
  pose proof (movePebble_drawn random dustObj dtMove dt p k) as H1.
  destruct (movePebble random dustObj dtMove dt p k) as [p' k'].
  specialize (IH k').
  destruct (movePebbles random dustObj dtMove dt rest k') as [rest' k''].
  cbn in *. lia.
Qed.

(** Pebble [i] after the loop is pebble [i] moved, with the draws that
    were next when the loop reached it. *)
Lemma movePebbles_nth random (dustObj : Dust) (dtMove dt : R)
  (ps : list Pebble) : forall (k i : nat) (p : Pebble),
  nth_error ps i = Some p ->
  exists j,
    (k <= j)%nat /\
    (snd (movePebble random dustObj dtMove dt p j)
     <= snd (movePebbles random dustObj dtMove dt ps k))%nat /\
    nth_error (fst (movePebbles random dustObj dtMove dt ps k)) i
    = Some (fst (movePebble random dustObj dtMove dt p j)).
Proof.
  induction ps as [| q rest IH]; intros k i p Hi.
  - destruct i; discriminate.
  - cbn [movePebbles].
    pose proof (movePebble_drawn random dustObj dtMove dt q k) as Hq.
    destruct i as [| i]; cbn [nth_error] in Hi.
    + injection Hi as ->. exists k.
      destruct (movePebble random dustObj dtMove dt p k) as [p' k'].
      pose proof (movePebbles_drawn random dustObj dtMove dt rest k') as Hr.
      destruct (movePebbles random dustObj dtMove dt rest k')
        as [rest' k''].
      cbn in *. repeat split; [lia | lia].
    + destruct (movePebble random dustObj dtMove dt q k) as [q' k'].
      destruct (IH k' i p Hi) as (j & Hj & Hs & Hn).
      destruct (movePebbles random dustObj dtMove dt rest k')
        as [rest' k''].
      cbn in *. exists j. repeat split; [lia | lia | exact Hn].
Qed.

Lemma movePebbles_length random (dustObj : Dust) (dtMove dt : R)
  (ps : list Pebble) : forall k,
  List.length (fst (movePebbles random dustObj dtMove dt ps k))
  = List.length ps.
Proof.
  induction ps as [| p rest IH]; intros k; [reflexivity |].
  cbn [movePebbles].
  destruct (movePebble random dustObj dtMove dt p k) as [p' k'].
  specialize (IH k').
  destruct (movePebbles random dustObj dtMove dt rest k') as [rest' k''].
  cbn in *. now rewrite IH.
Qed.

(** The loop adds [rotSpeed * dt] to every rotation phase, whatever the
    distance moved and whatever the draws. *)
Lemma movePebbles_rotAngle random (dustObj : Dust) (dtMove dt : R)
  (ps : list Pebble) : forall k,
  map rotAngle (fst (movePebbles random dustObj dtMove dt ps k))
  = map (fun p => rotAngle p + rotSpeed p * dt) ps.
Proof.
  induction ps as [| p rest IH]; intros k; [reflexivity |].
  cbn [movePebbles].
  assert (Hp : rotAngle (fst (movePebble random dustObj dtMove dt p k))
               = rotAngle p + rotSpeed p * dt).
  { unfold movePebble.
    destruct (JS.gt (THREE.z (pos p) + dtMove) (- near dustObj));
      reflexivity. }
  destruct (movePebble random dustObj dtMove dt p k) as [p' k'].
  specialize (IH k').
  destruct (movePebbles random dustObj dtMove dt rest k') as [rest' k''].
  cbn in *. now rewrite Hp, IH.
Qed.

(** The rotation phases after a frame's work on the field: advanced by
    [rotSpeed * dt] when the swarm is enabled, untouched when it is not. *)
Lemma updateDust_rotAngle random (P : Params) (dt : R) (dustObj : Dust)
  (k : nat) :
  map rotAngle (pebbles (fst (updateDust random P dt dustObj k)))
  = map (fun p => if spaceDustEnabled P
                  then rotAngle p + rotSpeed p * dt
                  else rotAngle p)
        (pebbles dustObj).
Proof.
  unfold updateDust. destruct (spaceDustEnabled P).
  - pose proof (movePebbles_rotAngle random dustObj
                  (JS.nullish (timeScale P) 1
                   * JS.or (spaceDustSpeed P) 0.6 * dt)
                  dt (pebbles dustObj) k) as H.
    destruct (movePebbles random dustObj _ dt (pebbles dustObj) k).
    exact H.
  - reflexivity.
Qed.

(** The frame's work on the field keeps its size and its settings. *)
Lemma updateDust_shape random (P : Params) (dt : R) (dustObj : Dust)
  (k : nat) :
  let d := fst (updateDust random P dt dustObj k) in
  List.length (pebbles d) = List.length (pebbles dustObj) /\
  spread d = spread dustObj /\ near d = near dustObj /\
  far d = far dustObj /\ sMin d = sMin dustObj /\ sMax d = sMax dustObj.
Proof.
  unfold updateDust. destruct (spaceDustEnabled P).
  - pose proof (movePebbles_length random dustObj
                  (JS.nullish (timeScale P) 1
                   * JS.or (spaceDustSpeed P) 0.6 * dt)
                  dt (pebbles dustObj) k) as H.
    destruct (movePebbles random dustObj _ dt (pebbles dustObj) k).
    cbn in *. repeat split. exact H.
  - cbn. repeat split.
Qed.

Lemma updateDust_dustChanged random (P : Params) (dt : R) (dustObj : Dust)
  (k : nat) :
  dustChanged P (fst (updateDust random P dt dustObj k))
  = dustChanged P dustObj.
Proof.
  destruct (updateDust_shape random P dt dustObj k)
    as (Hl & Hs & _ & _ & Hmin & Hmax).
  unfold dustChanged. now rewrite Hl, Hs, Hmin, Hmax.
Qed.

(** When the settings of the field have not changed, the scene keeps
    referring to the field the frame has updated. *)
Lemma renderLoop_dust random (scene : Scene) (f : Frame) (dustObj : Dust) :
  spaceDust scene = Some dustObj ->
  dustChanged (f_params f) dustObj = false ->
  spaceDust (renderLoop random scene f)
  = Some (fst (updateDust random (f_params f) (dt f) dustObj (drawn scene))).
Proof.
  intros Hd Hc. unfold renderLoop. rewrite Hd.
  pose proof (updateDust_dustChanged random (f_params f) (dt f) dustObj
                (drawn scene)) as Hu.
  destruct (updateDust random (f_params f) (dt f) dustObj (drawn scene))
    as [d k].
  cbn [fst] in *. unfold renewDust. rewrite Hu, Hc, andb_false_r.
  reflexivity.
Qed.

Lemma newPebbles_length random (P : Params) (sp nr fr mn mx : R)
  (count : nat) : forall k,
  List.length (newPebbles random P sp nr fr mn mx count k) = count.
Proof.
  induction count as [| n IH]; intros k; cbn; [reflexivity |].
  now rewrite IH.
Qed.

(** A field created from the current settings does not call for a
    rebuild. *)
Lemma createSpacePebbles_fresh random (P : Params) (k : nat) :
  dustChanged P (fst (createSpacePebbles random P (pebbleOptions P) k))
  = false.
Proof.
  unfold dustChanged, createSpacePebbles, pebbleOptions.
  cbn [fst pebbles spread sMin sMax JS.nullish po_count po_spread po_near
       po_far po_minScale po_maxScale].
  rewrite newPebbles_length, Nat.eqb_refl, !neq_refl. reflexivity.
Qed.

(** A pebble that passes the near plane is sent to the far plane and
    placed sideways by the two draws that are next. *)
Lemma movePebble_recycled random (dustObj : Dust) (dtMove dt : R)
  (p : Pebble) (j : nat) :
  THREE.z (pos p) + dtMove > - near dustObj ->
  pos (fst (movePebble random dustObj dtMove dt p j))
  = THREE.mkVector3 ((random j - 0.5) * spread dustObj)
                    ((random (j + 1)%nat - 0.5) * spread dustObj)
                    (- far dustObj) /\
  snd (movePebble random dustObj dtMove dt p j) = (j + 2)%nat.
Proof.
  intros H. unfold movePebble. rewrite (gt_true _ _ H). split; reflexivity.
Qed.

(** C4.  In a frame that updates the swarm, with [dt] and the multiplier
    not negative, a pebble whose depth passes the near bound when it
    advances by [multiplier * dustSpeed * dt] has afterwards the depth
    [- far], and its lateral coordinates are [(u - 0.5) * spread] for two
    numbers [u] drawn from [Math.random()] during this frame (draws not
    made before), hence within [[- spread / 2, spread / 2]]; the previous
    lateral position plays no part.  Unless the settings call for a
    rebuild, the field so updated is the field of the scene after the
    frame. *)
Theorem dust_respawn random (P : Params) (dt : R) (dustObj : Dust)
  (k i : nat) (p : Pebble) :
  (forall n, 0 <= random n < 1) ->
  spaceDustEnabled P = true ->
  0 <= dt ->
  0 <= JS.nullish (timeScale P) 1 ->
  0 <= spread dustObj ->
  nth_error (pebbles dustObj) i = Some p ->
  THREE.z (pos p) + JS.nullish (timeScale P) 1 * spaceDustSpeed P * dt
    > - near dustObj ->
  (exists p' j,
     nth_error (pebbles (fst (updateDust random P dt dustObj k))) i
       = Some p' /\
     (k <= j)%nat /\
     (j + 2 <= snd (updateDust random P dt dustObj k))%nat /\
     THREE.z (pos p') = - far dustObj /\
     THREE.x (pos p') = (random j - 0.5) * spread dustObj /\
     THREE.y (pos p') = (random (j + 1)%nat - 0.5) * spread dustObj /\
     - spread dustObj / 2 <= THREE.x (pos p') <= spread dustObj / 2 /\
     - spread dustObj / 2 <= THREE.y (pos p') <= spread dustObj / 2) /\
  (forall scene cam,
     spaceDust scene = Some dustObj ->
     drawn scene = k ->
     dustChanged P dustObj = false ->
     spaceDust (renderLoop random scene (mkFrame dt P cam))
     = Some (fst (updateDust random P dt dustObj k))).
Proof.
  intros Hr He Hdt Hm Hsp Hi Hz.
  split;
    [| intros scene cam Hd <- Hc;
       exact (renderLoop_dust random scene (mkFrame dt P cam) dustObj
                Hd Hc)].
  set (dtMove := JS.nullish (timeScale P) 1
                 * JS.or (spaceDustSpeed P) 0.6 * dt).
  assert (Hcross : THREE.z (pos p) + dtMove > - near dustObj).
  { unfold dtMove.
    destruct (Req_dec_T (spaceDustSpeed P) 0) as [H0 | H0].
    - rewrite H0, or_zero. rewrite H0 in Hz.
      assert (0 <= JS.nullish (timeScale P) 1 * dt)
        by (apply Rmult_le_pos; assumption).
      nra.
    - rewrite or_nonzero by assumption. exact Hz. }
  destruct (movePebbles_nth random dustObj dtMove dt (pebbles dustObj)
              k i p Hi) as (j & Hj & Hs & Hn).
  destruct (movePebble_recycled random dustObj dtMove dt p j Hcross)
    as (Hpos & Hk).
  exists (fst (movePebble random dustObj dtMove dt p j)), j.
  unfold updateDust. rewrite He. fold dtMove.
  destruct (movePebbles random dustObj dtMove dt (pebbles dustObj) k)
    as [ps k'].
  cbn [fst snd pebbles] in *.
  rewrite Hpos. cbn [THREE.x THREE.y THREE.z].
  pose proof (Hr j) as H1. pose proof (Hr (j + 1)%nat) as H2.
  repeat split; try assumption; try lia; nra.
Qed.

Lemma dust_respawn_witness :
  (exists p' j,
    nth_error (pebbles (fst (updateDust half params 100 theDust (drawn dustScene)))) 0
      = Some p' /\
    (drawn dustScene <= j)%nat /\
    (j + 2 <= snd (updateDust half params 100 theDust (drawn dustScene)))%nat /\
    THREE.z (pos p') = - far theDust /\
    THREE.x (pos p') = (half j - 0.5) * spread theDust /\
    THREE.y (pos p') = (half (j + 1) - 0.5) * spread theDust /\
    - spread theDust / 2 <= THREE.x (pos p') <= spread theDust / 2 /\
    - spread theDust / 2 <= THREE.y (pos p') <= spread theDust / 2) /\
  spaceDust (renderLoop half dustScene (mkFrame 100 params THREE.identity))
  = Some (fst (updateDust half params 100 theDust (drawn dustScene))).
Proof.
  assert (H : 0 <= 100) by lra.
  destruct (dust_respawn half params 100 theDust (drawn dustScene) 0 firstPebble half_range
              eq_refl H) as (H1 & H2).
  - cbn. lra.
  - cbn. lra.
  - reflexivity.
  - cbn. unfold half. lra.
  - split; [exact H1 |].
    exact (H2 dustScene THREE.identity eq_refl eq_refl
              (createSpacePebbles_fresh half params 1)).
Defined.


(** While the swarm is disabled a frame leaves every pebble as it is. *)
Lemma renderLoop_dust_off random (scene : Scene) (f : Frame) :
  spaceDustEnabled (f_params f) = false ->
  dustPebbles (renderLoop random scene f) = dustPebbles scene.
Proof.
  intros He. unfold dustPebbles, renderLoop.
  destruct (spaceDust scene) as [dustObj |]; [| reflexivity].
  unfold updateDust, renewDust. rewrite He. reflexivity.
Qed.

Lemma firstPebble_rotSpeed : rotSpeed firstPebble = 0.75.
Proof.
  unfold firstPebble, newPebble, rnd, half; cbn.
  rewrite or_nonzero by lra. lra.
Qed.

(** The claim C5 fails on the code: with the "Space Dust" box unticked,
    a frame of one second leaves the rotation phase of the first pebble
    of the module's field where it was, although its rotation speed times
    [dt] is 0.75. *)
Lemma dust_rotation_stops_when_disabled :
  nth_error (dustPebbles dustScene) 0 = Some firstPebble /\
  exists p',
    nth_error (dustPebbles (renderLoop half dustScene dustOff)) 0 = Some p' /\
    rotAngle p' = rotAngle firstPebble /\
    rotAngle p' <> rotAngle firstPebble + rotSpeed firstPebble * dt dustOff.
Proof.
  split; [reflexivity |].
  exists firstPebble.
  split; [rewrite renderLoop_dust_off by reflexivity; reflexivity |].
  split; [reflexivity |].
  rewrite firstPebble_rotSpeed. cbn. lra.
Qed.

(** C5, amended.  A frame advances the rotation phase of every pebble by
    its own rotation speed times [dt] when the swarm is enabled, and
    leaves the pebbles untouched when the swarm is disabled. *)
Theorem dust_rotation_gated random :
  (forall P dt dustObj k,
     map rotAngle (pebbles (fst (updateDust random P dt dustObj k)))
     = map (fun p => if spaceDustEnabled P
                     then rotAngle p + rotSpeed p * dt
                     else rotAngle p)
           (pebbles dustObj)) /\
  (forall scene f dustObj,
     spaceDust scene = Some dustObj ->
     spaceDustEnabled (f_params f) = true ->
     dustChanged (f_params f) dustObj = false ->
     map rotAngle (dustPebbles (renderLoop random scene f))
     = map (fun p => rotAngle p + rotSpeed p * dt f) (pebbles dustObj)) /\
  (forall scene f,
     spaceDustEnabled (f_params f) = false ->
     dustPebbles (renderLoop random scene f) = dustPebbles scene).
Proof.
  split; [exact (updateDust_rotAngle random) |].
  split; [| exact (renderLoop_dust_off random)].
  intros scene f dustObj Hd He Hc.
  unfold dustPebbles. rewrite (renderLoop_dust random scene f dustObj Hd Hc).
  rewrite updateDust_rotAngle, He. reflexivity.
Qed.

Lemma dust_rotation_gated_witness :
  map rotAngle (dustPebbles (renderLoop half dustScene oneSecond))
  = map (fun p => rotAngle p + rotSpeed p * 1) (pebbles theDust).
Proof.
  destruct (dust_rotation_gated half) as (_ & H & _).
  exact (H dustScene oneSecond theDust eq_refl eq_refl
           (createSpacePebbles_fresh half params 1)).
Defined.

(** ** A time scale of zero *)

Lemma rotateY_0 (q : THREE.Quaternion) :
  THREE.rotateY q 0 = q.
Proof.
  unfold THREE.rotateY, THREE.setFromAxisAngle, THREE.multiplyQuaternions.
  cbn. replace (0 / 2) with 0 by lra. rewrite sin_0, cos_0.
  destruct q as [a b c d]. cbn. f_equal; ring.
Qed.

Lemma spinSaturnRing_zero (l : list Created) :
  map (fun c => option_map ring_rotation_y (ring c)) (spinSaturnRing 0 l)
  = map (fun c => option_map ring_rotation_y (ring c)) l.
Proof.
  induction l as [| c rest IH]; cbn; [reflexivity |].
  destruct (isSaturn c).
  - destruct (ring c) as [r |] eqn:Hr; cbn; rewrite ?Hr; cbn;
      [| reflexivity].
    do 2 f_equal. lra.
  - cbn. now rewrite IH.
Qed.

Lemma ring_animatePlanet (dt t : R) (l : list Created) :
  map ring (map (animatePlanet dt t) l) = map ring l.
Proof. rewrite map_map. apply map_ext. reflexivity. Qed.

(** With the time scale at zero a frame moves no orbit group, turns no
    planet, leaves ring and belt where they are and moves no pebble that
    lies beyond the near plane towards the camera. *)
Lemma frozen_at_zero random (scene : Scene) (f : Frame) :
  timeScale (f_params f) = Some 0 ->
  map orbit_rotation_y (created (renderLoop random scene f))
    = map orbit_rotation_y (created scene) /\
  map mesh_quaternion (created (renderLoop random scene f))
    = map mesh_quaternion (created scene) /\
  map (fun c => option_map ring_rotation_y (ring c))
      (created (renderLoop random scene f))
    = map (fun c => option_map ring_rotation_y (ring c)) (created scene) /\
  option_map belt_rotation_y (asteroidBelt (renderLoop random scene f))
    = option_map belt_rotation_y (asteroidBelt scene) /\
  (forall dustObj k i p,
     nth_error (pebbles dustObj) i = Some p ->
     THREE.z (pos p) <= - near dustObj ->
     exists p',
       nth_error
         (pebbles (fst (updateDust random (f_params f) (dt f) dustObj k))) i
         = Some p' /\
       pos p' = pos p).
Proof.
  intros Hts.
  assert (Hm : multiplier f = 0) by (unfold multiplier; now rewrite Hts).
  pose proof (renderLoop_sansRing random scene f) as Hs. rewrite Hm in Hs.
  split; [| split; [| split; [| split]]].
  - transitivity (map orbit_rotation_y
                    (map sansRing (created (renderLoop random scene f)))).
    { rewrite map_map. apply map_ext. reflexivity. }
    rewrite Hs, map_map. apply map_ext. intros obj. cbn. lra.
  - transitivity (map mesh_quaternion
                    (map sansRing (created (renderLoop random scene f)))).
    { rewrite map_map. apply map_ext. reflexivity. }
    rewrite Hs, map_map. apply map_ext. intros obj. cbn.
    replace (speed (data obj) * dt f * 0) with 0 by lra.
    apply rotateY_0.
  - unfold renderLoop.
    destruct (match spaceDust scene with Some _ => _ | None => _ end).
    cbn [created]. rewrite Hts. cbn [JS.nullish].
    rewrite spinSaturnRing_zero.
    rewrite <- (map_map ring (option_map ring_rotation_y)).
    rewrite ring_animatePlanet, map_map. reflexivity.
  - rewrite renderLoop_belt, Hm.
    destruct (asteroidBelt scene); cbn; [f_equal; lra | reflexivity].
  - intros dustObj k i p Hi Hz.
    unfold updateDust. rewrite Hts. cbn [JS.nullish].
    destruct (spaceDustEnabled (f_params f)).
    + set (dtMove := 0 * JS.or (spaceDustSpeed (f_params f)) 0.6 * dt f).
      assert (H0 : dtMove = 0) by (unfold dtMove; ring).
      destruct (movePebbles_nth random dustObj dtMove (dt f)
                  (pebbles dustObj) k i p Hi) as (j & _ & _ & Hn).
      destruct (movePebbles random dustObj dtMove (dt f)
                  (pebbles dustObj) k) as [ps k'].
      cbn [fst pebbles] in *. rewrite Hn.
      eexists. split; [reflexivity |].
      unfold movePebble. rewrite gt_false by lra. cbn.
      destruct (pos p) as [a b c]. cbn in *. f_equal. lra.
    + cbn. exists p. split; [exact Hi | reflexivity].
Qed.

(** C10.  The time scale has no part in the pebbles' spin: two frames
    that differ in the time scale only, on the same field with the same
    draws, leave every pebble with the same rotation phase, which is the
    old phase plus [rotSpeed * dt] when the swarm is enabled; this holds
    for a time scale of zero too, where the orbit groups, the planets'
    spin, ring, belt and the pebbles' approach stand still. *)
Theorem dust_rotation_ignores_timeScale random (P : Params) (dt : R)
  (dustObj : Dust) (k : nat) (ts1 ts2 : option R) :
  map rotAngle
      (pebbles (fst (updateDust random (withTimeScale ts1 P) dt dustObj k)))
  = map rotAngle
      (pebbles (fst (updateDust random (withTimeScale ts2 P) dt dustObj k)))
  /\
  (spaceDustEnabled P = true ->
   map rotAngle
       (pebbles (fst (updateDust random (withTimeScale ts1 P) dt dustObj k)))
   = map (fun p => rotAngle p + rotSpeed p * dt) (pebbles dustObj)) /\
  (forall scene cam,
     spaceDust scene = Some dustObj ->
     dustChanged P dustObj = false ->
     map rotAngle
         (dustPebbles
            (renderLoop random scene (mkFrame dt (withTimeScale ts1 P) cam)))
     = map rotAngle
         (dustPebbles
            (renderLoop random scene (mkFrame dt (withTimeScale ts2 P) cam))))
  /\
  (forall scene cam,
     let f := mkFrame dt (withTimeScale (Some 0) P) cam in
     map orbit_rotation_y (created (renderLoop random scene f))
       = map orbit_rotation_y (created scene) /\
     map mesh_quaternion (created (renderLoop random scene f))
       = map mesh_quaternion (created scene) /\
     map (fun c => option_map ring_rotation_y (ring c))
         (created (renderLoop random scene f))
       = map (fun c => option_map ring_rotation_y (ring c))
             (created scene) /\
     option_map belt_rotation_y (asteroidBelt (renderLoop random scene f))
       = option_map belt_rotation_y (asteroidBelt scene) /\
     (forall i p,
        nth_error (pebbles dustObj) i = Some p ->
        THREE.z (pos p) <= - near dustObj ->
        exists p',
          nth_error
            (pebbles (fst (updateDust random (withTimeScale (Some 0) P) dt
                             dustObj k))) i = Some p' /\
          pos p' = pos p)).
Proof.
  split; [now rewrite !updateDust_rotAngle |].
  split.
  { intros He. rewrite updateDust_rotAngle. cbn [spaceDustEnabled
      withTimeScale]. now rewrite He. }
  split.
  { intros scene cam Hd Hc. unfold dustPebbles.
    rewrite !(renderLoop_dust random scene _ dustObj Hd) by exact Hc.
    cbn [f_params]. now rewrite !updateDust_rotAngle. }
  intros scene cam f.
  destruct (frozen_at_zero random scene f eq_refl)
    as (H1 & H2 & H3 & H4 & H5).
  repeat split; try assumption.
  intros i p Hi Hz. exact (H5 dustObj k i p Hi Hz).
Qed.

Lemma dust_rotation_ignores_timeScale_witness :
  map rotAngle
      (pebbles (fst (updateDust half (withTimeScale (Some 0) params) 1
                       theDust 1)))
  = map (fun p => rotAngle p + rotSpeed p * 1) (pebbles theDust) /\
  map rotAngle
      (dustPebbles
         (renderLoop half dustScene
            (mkFrame 1 (withTimeScale (Some 0) params) THREE.identity)))
  = map rotAngle
      (dustPebbles
         (renderLoop half dustScene
            (mkFrame 1 (withTimeScale (Some 100) params) THREE.identity))).
Proof.
  destruct (dust_rotation_ignores_timeScale half params 1 theDust 1
              (Some 0) (Some 100)) as (_ & H1 & H2 & _).
  split.
  - exact (H1 eq_refl).
  - exact (H2 dustScene THREE.identity eq_refl
             (createSpacePebbles_fresh half params 1)).
Defined.

(** ** Saturn's ring and the asteroid belt *)

Lemma find_animatePlanet (dt t : R) (l : list Created) :
  find isSaturn (map (animatePlanet dt t) l)
  = option_map (animatePlanet dt t) (find isSaturn l).
Proof.
  induction l as [| c rest IH]; [reflexivity |].
  cbn [map find].
  change (isSaturn (animatePlanet dt t c)) with (isSaturn c).
  destruct (isSaturn c); [reflexivity | exact IH].
Qed.

(** The entry [created.find] returns after the ring has been turned is
    the entry it returned before, its ring turned. *)
Lemma find_spinSaturnRing (t : R) (l : list Created) (c : Created)
  (r : Ring) :
  find isSaturn l = Some c ->
  ring c = Some r ->
  find isSaturn (spinSaturnRing t l)
  = Some (set_ring (Some (mkRing (rocks r) (ring_rotation_x r)
                                 (ring_rotation_y r + 0.001 * t))) c).
Proof.
  induction l as [| a rest IH]; intros Hf Hr; [discriminate |].
  cbn [find spinSaturnRing] in *.
  destruct (isSaturn a) eqn:Ha.
  - injection Hf as ->. rewrite Hr. cbn [find].
    change (isSaturn (set_ring _ c)) with (isSaturn c).
    now rewrite Ha.
  - cbn [find]. rewrite Ha. now apply IH.
Qed.

(** The rings after a frame do not depend on the planets' animation. *)
Lemma ring_spinSaturnRing_animate (dt t : R) (l : list Created) :
  map ring (spinSaturnRing t (map (animatePlanet dt t) l))
  = map ring (spinSaturnRing t l).
Proof.
  induction l as [| c rest IH]; [reflexivity |].
  cbn [map spinSaturnRing].
  change (isSaturn (animatePlanet dt t c)) with (isSaturn c).
  change (ring (animatePlanet dt t c)) with (ring c).
  destruct (isSaturn c).
  - destruct (ring c); cbn; now rewrite ring_animatePlanet.
  - cbn. now rewrite IH.
Qed.

Lemma renderLoop_rings random (scene : Scene) (f : Frame) :
  map ring (created (renderLoop random scene f))
  = map ring (spinSaturnRing (multiplier f) (created scene)).
Proof.
  unfold renderLoop.
  destruct (match spaceDust scene with Some _ => _ | None => _ end).
  cbn [created]. apply ring_spinSaturnRing_animate.
Qed.

Lemma renderLoop_find random (scene : Scene) (f : Frame) (c : Created)
  (r : Ring) :
  find isSaturn (created scene) = Some c ->
  ring c = Some r ->
  find isSaturn (created (renderLoop random scene f))
  = Some (set_ring
            (Some (mkRing (rocks r) (ring_rotation_x r)
                          (ring_rotation_y r + 0.001 * multiplier f)))
            (animatePlanet (dt f) (multiplier f) c)).
Proof.
  intros Hf Hr. unfold renderLoop.
  destruct (match spaceDust scene with Some _ => _ | None => _ end).
  cbn [created].
  apply find_spinSaturnRing.
  - now rewrite find_animatePlanet, Hf.
  - exact Hr.
Qed.

(** The ring over a sequence of frames: it turns by 0.001 times the sum
    of the multipliers, however long the frames last. *)
Lemma run_ring random (frames : list Frame) :
  forall (scene : Scene) (c : Created) (r : Ring),
  find isSaturn (created scene) = Some c ->
  ring c = Some r ->
  exists c' r',
    find isSaturn (created (run random scene frames)) = Some c' /\
    ring c' = Some r' /\
    rocks r' = rocks r /\
    ring_rotation_x r' = ring_rotation_x r /\
    ring_rotation_y r' = ring_rotation_y r + 0.001 * ticks frames.
Proof.
  induction frames as [| f rest IH]; intros scene c r Hf Hr.
  - exists c, r. cbn. repeat split; try assumption. lra.
  - rewrite run_cons.
    pose proof (renderLoop_find random scene f c r Hf Hr) as H1.
    destruct (IH _ _ _ H1 eq_refl) as (c' & r' & Hf' & Hr' & Hk & Hx & Hy).
    exists c', r'. cbn in Hk, Hx, Hy. repeat split; try assumption.
    rewrite Hy. cbn. lra.
Qed.

(** The belt over a sequence of frames: it turns by 0.02 times the
    scaled time elapsed. *)
Lemma run_belt random (frames : list Frame) :
  forall (scene : Scene) (b : Belt),
  asteroidBelt scene = Some b ->
  exists b',
    asteroidBelt (run random scene frames) = Some b' /\
    belt_rotation_x b' = belt_rotation_x b /\
    belt_rotation_y b' = belt_rotation_y b + 0.02 * elapsed frames.
Proof.
  induction frames as [| f rest IH]; intros scene b Hb.
  - exists b. cbn. repeat split; try assumption. lra.
  - rewrite run_cons.
    assert (H1 : asteroidBelt (renderLoop random scene f)
                 = Some (mkBelt (instances b) (belt_rotation_x b)
                           (belt_rotation_y b
                            + 0.02 * dt f * multiplier f)))
      by (rewrite renderLoop_belt, Hb; reflexivity).
    destruct (IH _ _ H1) as (b' & Hb' & Hx & Hy).
    exists b'. cbn in Hx, Hy. repeat split; try assumption.
    rewrite Hy. cbn. lra.
Qed.

(** C6.  In every frame the ring group found on Saturn turns by
    [0.001 * m], whatever the frame's [dt] (two frames that differ in
    [dt] only leave all rings equal), and the asteroid belt turns by
    [0.02 * dt * m].  So over a sequence of frames the ring has turned by
    0.001 times the sum of the multipliers, one share per frame however
    long it lasted, and the belt by 0.02 times the scaled time elapsed. *)
Theorem ring_and_belt_rotation random (scene : Scene) (f : Frame)
  (c : Created) (r : Ring) (b : Belt) :
  find isSaturn (created scene) = Some c ->
  ring c = Some r ->
  asteroidBelt scene = Some b ->
  (exists c' r' b',
     find isSaturn (created (renderLoop random scene f)) = Some c' /\
     ring c' = Some r' /\
     asteroidBelt (renderLoop random scene f) = Some b' /\
     ring_rotation_y r' = ring_rotation_y r + 0.001 * multiplier f /\
     ring_rotation_x r' = ring_rotation_x r /\
     rocks r' = rocks r /\
     belt_rotation_y b'
       = belt_rotation_y b + 0.02 * dt f * multiplier f /\
     belt_rotation_x b' = belt_rotation_x b) /\
  (forall dt',
     map ring
         (created (renderLoop random scene
                     (mkFrame dt' (f_params f) (camera_quaternion f))))
     = map ring (created (renderLoop random scene f))) /\
  (forall frames,
     exists c' r' b',
       find isSaturn (created (run random scene frames)) = Some c' /\
       ring c' = Some r' /\
       asteroidBelt (run random scene frames) = Some b' /\
       ring_rotation_y r' = ring_rotation_y r + 0.001 * ticks frames /\
       belt_rotation_y b' = belt_rotation_y b + 0.02 * elapsed frames).
Proof.
  intros Hf Hr Hb.
  split; [| split].
  - eexists _, _, _.
    split; [exact (renderLoop_find random scene f c r Hf Hr) |].
    split; [reflexivity |].
    split; [rewrite renderLoop_belt, Hb; reflexivity |].
    cbn. repeat split.
  - intros dt'. now rewrite !renderLoop_rings.
  - intros frames.
    destruct (run_ring random frames scene c r Hf Hr)
      as (c' & r' & H1 & H2 & _ & _ & H3).
    destruct (run_belt random frames scene b Hb) as (b' & H4 & _ & H5).
    exists c', r', b'. repeat split; assumption.
Qed.

Lemma ring_and_belt_rotation_witness :
  (exists c' r' b',
     find isSaturn (created (renderLoop half saturnScene oneSecond))
       = Some c' /\
     ring c' = Some r' /\
     asteroidBelt (renderLoop half saturnScene oneSecond) = Some b' /\
     ring_rotation_y r' = 0 + 0.001 * 1.0 /\
     ring_rotation_x r' = THREE.degToRad 12 /\
     rocks r' = ringRocks half (4.6 * 0.3) (4.6 * 0.55) 700 0 /\
     belt_rotation_y b' = 0 + 0.02 * 1 * 1.0 /\
     belt_rotation_x b' = THREE.degToRad 2) /\
  (forall dt',
     map ring
         (created (renderLoop half saturnScene
                     (mkFrame dt' params THREE.identity)))
     = map ring (created (renderLoop half saturnScene oneSecond))) /\
  (forall frames,
     exists c' r' b',
       find isSaturn (created (run half saturnScene frames)) = Some c' /\
       ring c' = Some r' /\
       asteroidBelt (run half saturnScene frames) = Some b' /\
       ring_rotation_y r' = 0 + 0.001 * ticks frames /\
       belt_rotation_y b' = 0 + 0.02 * elapsed frames).
Proof.
  exact (ring_and_belt_rotation half saturnScene oneSecond _ _ _
           eq_refl eq_refl eq_refl).
Defined.

(** ** Labels *)

Lemma addPlanetLabels_planetObj (P : Params) (l : list Created) :
  forall i,
  map planetObj (snd (addPlanetLabels P l i)) = seq i (List.length l).
Proof.
  induction l as [| obj rest IH]; intros i; [reflexivity |].
  cbn [addPlanetLabels]. specialize (IH (S i)).
  destruct (addPlanetLabels P rest (S i)) as [rest' recs].
  cbn in *. now rewrite IH.
Qed.

Lemma renderLoop_labels random (scene : Scene) (f : Frame) :
  _labels (renderLoop random scene f)
  = option_map (map (updateLabel (f_params f) (camera_quaternion f)))
               (_labels scene).
Proof.
  unfold renderLoop.
  destruct (match spaceDust scene with Some _ => _ | None => _ end).
  cbn [_labels]. destruct (_labels scene); reflexivity.
Qed.

(** With labels enabled, a frame stores the camera's quaternion in the
    label's own quaternion. *)
Lemma updateLabel_quaternion (P : Params) (cam : THREE.Quaternion)
  (rec : LabelRec) :
  labelsEnabled P = true ->
  quaternion (label (updateLabel P cam rec)) = cam /\
  planetObj (updateLabel P cam rec) = planetObj rec.
Proof.
  intros He. unfold updateLabel, faceCamera. rewrite He. cbn.
  destruct (JS.truthy (fontSize (label rec)) && _); split; reflexivity.
Qed.

(** The glyphs are synchronised again only in a frame that finds the
    label's size away from the wanted size, and that frame gives the label
    the wanted size. *)
Lemma updateLabel_sync (P : Params) (cam : THREE.Quaternion)
  (rec : LabelRec) :
  let rec' := updateLabel P cam rec in
  (syncs (label rec') = syncs (label rec) /\
   fontSize (label rec') = fontSize (label rec)) \/
  (syncs (label rec') = S (syncs (label rec)) /\
   labelsEnabled P = true /\
   Rabs (fontSize (label rec) - JS.or (labelSize P) 0.6) > 0.001 /\
   fontSize (label rec') = JS.or (labelSize P) 0.6).
Proof.
  unfold updateLabel, faceCamera.
  destruct (labelsEnabled P); [| left; split; reflexivity].
  cbn [set_visible fontSize syncs text visible quaternion].
  destruct (JS.truthy (fontSize (label rec))); cbn [andb];
    [| left; split; reflexivity].
  destruct (JS.gt _ 0.001) eqn:Hg; [| left; split; reflexivity].
  right. apply gt_spec in Hg. repeat split. exact Hg.
Qed.

(** A label whose size is the wanted one is not synchronised again. *)
Lemma updateLabel_settled (P : Params) (cam : THREE.Quaternion)
  (rec : LabelRec) :
  fontSize (label rec) = JS.or (labelSize P) 0.6 ->
  syncs (label (updateLabel P cam rec)) = syncs (label rec).
Proof.
  intros Hs.
  destruct (updateLabel_sync P cam rec) as [[H _] | (_ & _ & Hg & _)];
    [exact H |].
  rewrite Hs, Rminus_diag, Rabs_R0 in Hg. lra.
Qed.

(** ** The orientation of a label in the world *)

Lemma setFromEuler_z (ez : R) :
  THREE.setFromEuler 0 0 ez
  = THREE.mkQuaternion 0 0 (sin (ez / 2)) (cos (ez / 2)).
Proof.
  unfold THREE.setFromEuler.
  replace (0 / 2) with 0 by lra. rewrite sin_0, cos_0.
  f_equal; ring.
Qed.

Lemma multiplyQuaternions_1_l (q : THREE.Quaternion) :
  THREE.multiplyQuaternions THREE.identity q = q.
Proof.
  destruct q as [a b c d].
  unfold THREE.multiplyQuaternions, THREE.identity; cbn. f_equal; ring.
Qed.

Lemma multiplyQuaternions_1_r (q : THREE.Quaternion) :
  THREE.multiplyQuaternions q THREE.identity = q.
Proof.
  destruct q as [a b c d].
  unfold THREE.multiplyQuaternions, THREE.identity; cbn. f_equal; ring.
Qed.

Lemma worldQuaternion_tilt (obj : Created) (l : Label) :
  orbit_rotation_y obj = 0 ->
  mesh_quaternion obj = THREE.identity ->
  worldQuaternion obj l
  = THREE.multiplyQuaternions
      (THREE.mkQuaternion 0 0 (sin (tilt_rotation_z obj / 2))
                          (cos (tilt_rotation_z obj / 2)))
      (quaternion l).
Proof.
  intros Ho Hm. unfold worldQuaternion. rewrite Ho, Hm.
  rewrite multiplyQuaternions_1_r, !setFromEuler_z.
  replace (0 / 2) with 0 by lra. rewrite sin_0, cos_0.
  fold THREE.identity. now rewrite multiplyQuaternions_1_l.
Qed.

(** A rotation about Z that is not a full turn, composed with any
    orientation, gives another orientation. *)
Lemma tilted_orientation (s c : R) (q : THREE.Quaternion) :
  s <> 0 ->
  lengthSq q = 1 ->
  ~ THREE.sameOrientation
      (THREE.multiplyQuaternions (THREE.mkQuaternion 0 0 s c) q) q.
Proof.
  intros Hs Hq. destruct q as [a b d w].
  unfold lengthSq in Hq. cbn in Hq.
  assert (Hab : forall e1 e2 e3 e4 : R,
             e1 = 0 -> e2 = 0 -> e3 = 0 -> e4 = 0 ->
             s * (a * a + b * b + d * d + w * w)
             = a * e2 - b * e1 + w * e3 - d * e4 -> False).
  { intros e1 e2 e3 e4 -> -> -> -> H.
    assert (H0 : s * 1 = 0) by (rewrite <- Hq, H; ring).
    apply Hs. lra. }
  unfold THREE.sameOrientation, THREE.multiplyQuaternions, THREE.negate.
  cbn. intros [H | H]; injection H as H1 H2 H3 H4.
  - apply (Hab (0 * w + c * a + 0 * d - s * b - a)
               (0 * w + c * b + s * a - 0 * d - b)
               (s * w + c * d + 0 * b - 0 * a - d)
               (c * w - 0 * a - 0 * b - s * d - w)); lra.
  - apply (Hab (0 * w + c * a + 0 * d - s * b + a)
               (0 * w + c * b + s * a - 0 * d + b)
               (s * w + c * d + 0 * b - 0 * a + d)
               (c * w - 0 * a - 0 * b - s * d + w)); lra.
Qed.

Lemma labels_addSpaceDust random (scene : Scene) :
  _labels (addSpaceDust random scene) = _labels scene.
Proof.
  unfold addSpaceDust. destruct (spaceDust scene); [reflexivity |].
  destruct (createSpacePebbles random params (pebbleOptions params)
              (drawn scene)). reflexivity.
Qed.

(** The module makes one label per planet, in the planets' order. *)
Lemma assemble_labels random :
  exists recs,
    _labels (assemble random) = Some recs /\
    map planetObj recs = seq 0 (List.length planets).
Proof.
  unfold assemble.
  pose proof (bare_attachAllMoons random (map buildPlanetWithTilt planets)
                0%nat) as H1.
  destruct (attachAllMoons random (map buildPlanetWithTilt planets) 0)
    as [created1 k1].
  pose proof (addPlanetLabels_planetObj params created1 0%nat) as H2.
  destruct (addPlanetLabels params created1 0) as [created2 labels].
  destruct (createAsteroidBelt random _ k1) as [belt k2].
  destruct (addSaturnRing random created2 k2) as [created3 k3].
  cbn [_labels fst snd] in *.
  exists labels. split; [reflexivity |].
  rewrite H2. f_equal.
  apply (f_equal (@List.length Created)) in H1.
  now rewrite !length_map in H1.
Qed.

(** Venus in the running program after the first frame, whose [dt] is 0:
    its orbit group and its mesh are not turned, its tilt group leans by
    177.3 degrees. *)
Lemma venus_first_frame random (first : Frame) :
  dt first = 0 ->
  exists obj,
    nth_error
      (created (run random (addSpaceDust random (assemble random)) [first]))
      1 = Some obj /\
    data obj = venus /\
    orbit_rotation_y obj = 0 /\
    mesh_quaternion obj = THREE.identity /\
    tilt_rotation_z obj = 177.3 * PI / 180.
Proof.
  intros Hdt.
  pose proof (program_bare random [first]) as H.
  apply (f_equal (fun l => nth_error l 1)) in H.
  rewrite nth_error_map in H.
  remember (nth_error
              (created (run random (addSpaceDust random (assemble random))
                            [first])) 1) as o eqn:Hnth.
  cbn [planets map nth_error] in H.
  destruct o as [obj |]; [| discriminate].
  exists obj. split; [reflexivity |].
  assert (Hb : bare obj
               = animateFor [first]
                   (buildPlanetWithTilt
                      (mkPlanetData "Venus" 0.95 12 0.00812760 177.3
                                    (Some [])))).
  { exact (f_equal (fun o => match o with
                             | Some c => c
                             | None => bare obj
                             end) H). }
  clear H. unfold bare, set_children, set_ring in Hb. cbn in Hb.
  injection Hb as Hd Ho Ht _ _ Hq.
  repeat split.
  - exact Hd.
  - rewrite Ho, Hdt. lra.
  - rewrite Hq, Hdt.
    replace (0.00812760 * 0 * multiplier first) with 0 by lra.
    apply rotateY_0.
  - rewrite Ht. now rewrite or_default_zero.
Qed.

(** C7, on the code.  In the running program, after the first frame
    (whose [dt] is 0) with labels enabled and whatever unit quaternion
    the camera has, the label of Venus holds a copy of the camera's
    quaternion as its own quaternion; but the label hangs under Venus'
    mesh and tilt group, so its orientation in the world is that copy
    turned by the tilt of 177.3 degrees, which is not the camera's
    orientation: the label does not face the observer. *)
Theorem venus_label_not_billboarded random (first : Frame) :
  dt first = 0 ->
  labelsEnabled (f_params first) = true ->
  lengthSq (camera_quaternion first) = 1 ->
  let scene := run random (addSpaceDust random (assemble random)) [first] in
  exists recs rec obj,
    _labels scene = Some recs /\
    nth_error recs 1 = Some rec /\
    planetObj rec = 1%nat /\
    nth_error (created scene) 1 = Some obj /\
    data obj = venus /\
    quaternion (label rec) = camera_quaternion first /\
    ~ THREE.sameOrientation (worldQuaternion obj (label rec))
        (camera_quaternion first).
Proof.
  intros Hdt He Hq scene.
  destruct (assemble_labels random) as (recs & Hl & Hp).
  destruct (venus_first_frame random first Hdt)
    as (obj & Hn & Hd & Ho & Hm & Ht).
  apply (f_equal (fun l => nth_error l 1)) in Hp.
  rewrite nth_error_map in Hp.
  destruct (nth_error recs 1) as [rec |] eqn:Hrec; [| discriminate].
  cbn in Hp. injection Hp as Hp.
  destruct (updateLabel_quaternion (f_params first) (camera_quaternion first)
              rec He) as (Hcopy & Hobj).
  exists (map (updateLabel (f_params first) (camera_quaternion first)) recs),
    (updateLabel (f_params first) (camera_quaternion first) rec), obj.
  split.
  { unfold scene. cbn [run fold_left].
    now rewrite renderLoop_labels, labels_addSpaceDust, Hl. }
  split; [now rewrite nth_error_map, Hrec |].
  split; [now rewrite Hobj |].
  split; [exact Hn |].
  split; [exact Hd |].
  split; [exact Hcopy |].
  rewrite (worldQuaternion_tilt obj _ Ho Hm), Hcopy.
  apply tilted_orientation; [| exact Hq].
  rewrite Ht. apply Rgt_not_eq. apply sin_gt_0.
  - pose proof PI_RGT_0. lra.
  - pose proof PI_RGT_0. lra.
Qed.

Lemma venus_label_not_billboarded_witness :
  let scene := run half (addSpaceDust half (assemble half)) [firstFrame] in
  exists recs rec obj,
    _labels scene = Some recs /\
    nth_error recs 1 = Some rec /\
    planetObj rec = 1%nat /\
    nth_error (created scene) 1 = Some obj /\
    data obj = venus /\
    quaternion (label rec) = THREE.identity /\
    ~ THREE.sameOrientation (worldQuaternion obj (label rec)) THREE.identity.
Proof.
  apply (venus_label_not_billboarded half firstFrame eq_refl eq_refl).
  unfold lengthSq, firstFrame, THREE.identity; cbn. lra.
Defined.

(** ** Start-up *)

Lemma attachMoons_none random (obj : Created) (k : nat) :
  moons (data obj) = Some [] -> attachMoons random obj k = (obj, k).
Proof.
  intros H. unfold attachMoons. rewrite H. cbn.
  destruct obj; reflexivity.
Qed.

(** C9.  Without a canvas the module stops with the error
    [canvasNotFound], whatever frames the host would have delivered: the
    frame callback is never run; with a canvas it runs the frames.  A
    planet with an empty list of moons is left as it is by the moon
    attachment, no random number is drawn for it, and the planets after
    it are handled as if it had not been there; the frame callback maps
    over its (empty) list of children without any effect. *)
Theorem canvas_missing_and_no_moons random :
  (forall first later, main random None first later = inl canvasNotFound) /\
  (forall first later,
     main random (Some canvasElement) first later
     = inr (run random (addSpaceDust random (assemble random))
                (first :: later))) /\
  (forall obj rest k,
     moons (data obj) = Some [] ->
     attachMoons random obj k = (obj, k) /\
     attachAllMoons random (obj :: rest) k
     = (obj :: fst (attachAllMoons random rest k),
        snd (attachAllMoons random rest k))) /\
  (forall dt t obj,
     children obj = [] -> children (animatePlanet dt t obj) = []).
Proof.
  split; [reflexivity |].
  split; [reflexivity |].
  split.
  - intros obj rest k H.
    split; [now apply attachMoons_none |].
    cbn [attachAllMoons]. rewrite (attachMoons_none random obj k H).
    destruct (attachAllMoons random rest k). reflexivity.
  - intros dt t obj H. cbn. now rewrite H.
Qed.

Lemma canvas_missing_and_no_moons_witness :
  main half None firstFrame [oneSecond] = inl canvasNotFound /\
  attachMoons half (buildPlanetWithTilt mercury) 0
  = (buildPlanetWithTilt mercury, 0%nat) /\
  attachAllMoons half
    [buildPlanetWithTilt mercury; buildPlanetWithTilt earth] 0
  = (buildPlanetWithTilt mercury
     :: fst (attachAllMoons half [buildPlanetWithTilt earth] 0),
     snd (attachAllMoons half [buildPlanetWithTilt earth] 0)) /\
  children (animatePlanet 1 1 (buildPlanetWithTilt mercury)) = [].
Proof.
  destruct (canvas_missing_and_no_moons half) as (H1 & _ & H3 & H4).
  split; [exact (H1 firstFrame [oneSecond]) |].
  destruct (H3 (buildPlanetWithTilt mercury) [buildPlanetWithTilt earth]
               0%nat eq_refl) as (Ha & Hb).
  split; [exact Ha |].
  split; [exact Hb |].
  exact (H4 1 1 (buildPlanetWithTilt mercury) eq_refl).
Defined.

(** * The rest of the code *)

(** ** Creation of the pebbles *)

Lemma newPebbles_nth random (P : Params) (sp nr fr mn mx : R)
  (count : nat) : forall (k i : nat) (p : Pebble),
  nth_error (newPebbles random P sp nr fr mn mx count k) i = Some p ->
  p = newPebble random P sp nr fr mn mx (k + 9 * i).
Proof.
  induction count as [| n IH]; intros k i p H.
  - destruct i; discriminate.
  - destruct i as [| i]; cbn [newPebbles nth_error] in H.
    + injection H as <-. f_equal. lia.
    + apply IH in H. rewrite H. f_equal. lia.
Qed.

Lemma rnd_between random (a b : R) (k : nat) :
  0 <= random k < 1 -> a <= b -> a <= rnd random a b k <= b.
Proof. intros Hr Hab. unfold rnd. split; nra. Qed.

(** A new pebble lies in the volume of its field. *)
Lemma newPebble_inBox random (P : Params) (d : Dust) (k : nat) :
  (forall n, 0 <= random n < 1) ->
  0 <= spread d -> near d <= far d ->
  inBox d (newPebble random P (spread d) (near d) (far d) (sMin d)
             (sMax d) k).
Proof.
  intros Hr Hs Hnf. unfold inBox, newPebble, rnd. cbn.
  pose proof (Hr k) as H0. pose proof (Hr (k + 1)%nat) as H1.
  pose proof (Hr (k + 2)%nat) as H2.
  repeat split; nra.
Qed.

(** X1.  [createSpacePebbles] makes as many pebbles as asked for and
    draws nine numbers for each.  With a spread that is not negative,
    the near plane not beyond the far plane and the scale bounds in
    order, every pebble lies within half the spread to each side and
    between the two planes, its scale lies within the bounds, its
    rotation phase in [0, 2 PI) and, if the top rotation speed is not
    below 0.3, its rotation speed between 0.3 and that top; the field is
    visible. *)
Theorem pebbles_created_in_bounds random (P : Params)
  (opts : PebbleOptions) (k i : nat) (p : Pebble) :
  let d := fst (createSpacePebbles random P opts k) in
  (forall n, 0 <= random n < 1) ->
  0 <= spread d ->
  near d <= far d ->
  sMin d <= sMax d ->
  nth_error (pebbles d) i = Some p ->
  inBox d p /\
  sMin d <= p_scale p <= sMax d /\
  0 <= rotAngle p < 2 * PI /\
  (0.3 <= JS.or (spaceDustRotSpeed P) 1.2 ->
   0.3 <= rotSpeed p <= JS.or (spaceDustRotSpeed P) 1.2) /\
  inst_visible d = true /\
  List.length (pebbles d) = JS.nullish (po_count opts) (spaceDustCount P) /\
  snd (createSpacePebbles random P opts k)
  = (k + 9 * JS.nullish (po_count opts) (spaceDustCount P))%nat.
Proof.
  intros d Hr Hs Hnf Hsc Hn.
  unfold d in Hn. cbn [createSpacePebbles fst pebbles] in Hn.
  apply newPebbles_nth in Hn.
  change (p = newPebble random P (spread d) (near d) (far d) (sMin d)
                (sMax d) (k + 9 * i)) in Hn.
  pose proof PI_RGT_0 as Hpi.
  split; [rewrite Hn; now apply newPebble_inBox |].
  split; [rewrite Hn; cbn [p_scale newPebble]; now apply rnd_between |].
  split.
  { rewrite Hn. cbn [rotAngle newPebble].
    pose proof (Hr (k + 9 * i + 8)%nat) as H8. split; nra. }
  split.
  { intros Htop. rewrite Hn. cbn [rotSpeed newPebble].
    now apply rnd_between. }
  split; [reflexivity |].
  split; [| reflexivity].
  unfold d. cbn [createSpacePebbles fst pebbles].
  apply newPebbles_length.
Qed.

Lemma pebbles_created_in_bounds_witness :
  inBox theDust firstPebble /\
  0.05 <= p_scale firstPebble <= 0.22 /\
  0 <= rotAngle firstPebble < 2 * PI /\
  List.length (pebbles theDust) = 800%nat.
Proof.
  assert (H1 : 0 <= spread theDust) by (cbn; lra).
  assert (H2 : near theDust <= far theDust) by (cbn; lra).
  assert (H3 : sMin theDust <= sMax theDust) by (cbn; lra).
  destruct (pebbles_created_in_bounds half params (pebbleOptions params)
              1 0 firstPebble half_range H1 H2 H3 eq_refl)
    as (Hb & Hs & Ha & _ & _ & Hl & _).
  split; [exact Hb |]. split; [exact Hs |]. split; [exact Ha | exact Hl].
Defined.

(** ** The pebbles' axes *)

Lemma lengthSq_nonneg (v : THREE.Vector3) :
  0 <= THREE.x v * THREE.x v + THREE.y v * THREE.y v
       + THREE.z v * THREE.z v.
Proof. nra. Qed.

(** [normalize] gives a vector of length 1, unless the vector is null. *)
Lemma normalize_length (v : THREE.Vector3) :
  THREE.length v <> 0 -> THREE.length (THREE.normalize v) = 1.
Proof.
  intros HL. unfold THREE.normalize. rewrite (or_nonzero _ _ HL).
  unfold THREE.length in *. cbn [THREE.x THREE.y THREE.z].
  set (q := THREE.x v * THREE.x v + THREE.y v * THREE.y v
            + THREE.z v * THREE.z v) in *.
  assert (Hq : sqrt q * sqrt q = q)
    by (apply sqrt_sqrt; apply lengthSq_nonneg).
  replace (THREE.x v * (1 / sqrt q) * (THREE.x v * (1 / sqrt q))
           + THREE.y v * (1 / sqrt q) * (THREE.y v * (1 / sqrt q))
           + THREE.z v * (1 / sqrt q) * (THREE.z v * (1 / sqrt q)))
    with 1.
  - apply sqrt_1.
  - transitivity (q * (1 / sqrt q) * (1 / sqrt q)); [| unfold q; ring].
    rewrite <- Hq at 1. field. exact HL.
Qed.

(** The null vector is left as it is. *)
Lemma normalize_null :
  THREE.normalize (THREE.mkVector3 0 0 0) = THREE.mkVector3 0 0 0.
Proof. unfold THREE.normalize. cbn. f_equal; ring. Qed.

(** About a unit axis, [setFromAxisAngle] gives a unit quaternion. *)
Lemma setFromAxisAngle_unit (axis : THREE.Vector3) (a : R) :
  THREE.length axis = 1 ->
  lengthSq (THREE.setFromAxisAngle axis a) = 1.
Proof.
  intros HL. unfold THREE.length in HL.
  pose proof (sqrt_sqrt _ (lengthSq_nonneg axis)) as Hq.
  rewrite HL in Hq.
  pose proof (sin2_cos2 (a / 2)) as Ht. unfold Rsqr in Ht.
  unfold lengthSq, THREE.setFromAxisAngle. cbn.
  transitivity
    ((THREE.x axis * THREE.x axis + THREE.y axis * THREE.y axis
      + THREE.z axis * THREE.z axis) * (sin (a / 2) * sin (a / 2))
     + cos (a / 2) * cos (a / 2)); [ring |].
  rewrite <- Hq. lra.
Qed.

(** X2.  A pebble for whose axis not all three draws are 0 gets an axis
    of length 1; the quaternion written for it is then a unit
    quaternion, when it is made and after every move of the frame
    callback, which never changes the axis.  (Three draws of 0 give the
    null axis.) *)
Theorem pebble_axis_unit random (P : Params) (sp nr fr mn mx : R)
  (k : nat) :
  (forall n, 0 <= random n < 1) ->
  0 < random (k + 4)%nat \/ 0 < random (k + 5)%nat
  \/ 0 < random (k + 6)%nat ->
  let p := newPebble random P sp nr fr mn mx k in
  THREE.length (rotAxis p) = 1 /\
  lengthSq (pebbleQuaternion p) = 1 /\
  (forall dustObj dtMove dt j,
     let p' := fst (movePebble random dustObj dtMove dt p j) in
     rotAxis p' = rotAxis p /\ lengthSq (pebbleQuaternion p') = 1).
Proof.
  intros Hr Hpos p.
  assert (HL : THREE.length (rotAxis p) = 1).
  { unfold p. cbn [rotAxis newPebble]. apply normalize_length.
    unfold THREE.length. cbn [THREE.x THREE.y THREE.z].
    apply Rgt_not_eq. apply sqrt_lt_R0.
    pose proof (Hr (k + 4)%nat) as H4. pose proof (Hr (k + 5)%nat) as H5.
    pose proof (Hr (k + 6)%nat) as H6.
    destruct Hpos as [H | [H | H]]; nra. }
  split; [exact HL |].
  split; [now apply setFromAxisAngle_unit |].
  intros dustObj dtMove dt j p'.
  assert (Ha : rotAxis p' = rotAxis p).
  { unfold p', movePebble.
    destruct (JS.gt (THREE.z (pos p) + dtMove) (- near dustObj));
      reflexivity. }
  split; [exact Ha |].
  unfold pebbleQuaternion. rewrite Ha. now apply setFromAxisAngle_unit.
Qed.

Lemma pebble_axis_unit_witness :
  THREE.length (rotAxis firstPebble) = 1 /\
  lengthSq (pebbleQuaternion firstPebble) = 1.
Proof.
  assert (H : 0 < half (1 + 4)%nat \/ 0 < half (1 + 5)%nat
              \/ 0 < half (1 + 6)%nat) by (left; unfold half; lra).
  destruct (pebble_axis_unit half params 40 2 60 0.05 0.22 1 half_range H)
    as (H1 & H2 & _).
  split; [exact H1 | exact H2].
Defined.

(** ** The pebbles' volume *)

Lemma newPebbles_inBox random (P : Params) (d : Dust) (count : nat) :
  (forall n, 0 <= random n < 1) ->
  0 <= spread d -> near d <= far d ->
  forall k,
  Forall (inBox d)
         (newPebbles random P (spread d) (near d) (far d) (sMin d)
                     (sMax d) count k).
Proof.
  intros Hr Hs Hnf. induction count as [| n IH]; intros k; cbn.
  - constructor.
  - constructor; [now apply newPebble_inBox | apply IH].
Qed.

(** One move keeps a pebble in the volume: it advances towards the near
    plane or is put back on the far plane, within the spread. *)
Lemma movePebble_inBox random (d : Dust) (dtMove dt : R) (p : Pebble)
  (j : nat) :
  (forall n, 0 <= random n < 1) ->
  0 <= spread d -> near d <= far d -> 0 <= dtMove ->
  inBox d p ->
  inBox d (fst (movePebble random d dtMove dt p j)).
Proof.
  intros Hr Hs Hnf Hm (Hx & Hy & Hz). unfold movePebble, inBox.
  destruct (JS.gt (THREE.z (pos p) + dtMove) (- near d)) eqn:Hg; cbn.
  - pose proof (Hr j) as H0. pose proof (Hr (j + 1)%nat) as H1.
    repeat split; nra.
  - assert (~ THREE.z (pos p) + dtMove > - near d).
    { intros Hc. apply gt_spec in Hc. congruence. }
    repeat split; lra.
Qed.

Lemma movePebbles_inBox random (d : Dust) (dtMove dt : R)
  (ps : list Pebble) :
  (forall n, 0 <= random n < 1) ->
  0 <= spread d -> near d <= far d -> 0 <= dtMove ->
  forall k,
  Forall (inBox d) ps ->
  Forall (inBox d) (fst (movePebbles random d dtMove dt ps k)).
Proof.
  intros Hr Hs Hnf Hm. induction ps as [| p rest IH]; intros k H.
  - constructor.
  - inversion H as [| ? ? Hp Hrest]; subst. cbn [movePebbles].
    pose proof (movePebble_inBox random d dtMove dt p k Hr Hs Hnf Hm Hp)
      as H1.
    destruct (movePebble random d dtMove dt p k) as [p' k'].
    specialize (IH k' Hrest).
    destruct (movePebbles random d dtMove dt rest k') as [rest' k''].
    constructor; assumption.
Qed.

Lemma or_nonneg (x d : R) : 0 <= x -> 0 <= d -> 0 <= JS.or x d.
Proof.
  intros Hx Hd. unfold JS.or. destruct (JS.truthy x); assumption.
Qed.

(** The distance the pebbles move in a frame that runs forward. *)
Lemma dtMove_nonneg (f : Frame) :
  forward f ->
  0 <= JS.nullish (timeScale (f_params f)) 1
       * JS.or (spaceDustSpeed (f_params f)) 0.6 * dt f.
Proof.
  intros (Hdt & Hm & Hsp & _).
  assert (0 <= JS.or (spaceDustSpeed (f_params f)) 0.6)
    by (apply or_nonneg; lra).
  apply Rmult_le_pos; [apply Rmult_le_pos |]; assumption.
Qed.

Lemma renderLoop_inBox random (scene : Scene) (f : Frame) :
  (forall n, 0 <= random n < 1) ->
  forward f ->
  dustInBox scene ->
  dustInBox (renderLoop random scene f).
Proof.
  intros Hr Hf Hb. pose proof (dtMove_nonneg f Hf) as Hm.
  destruct Hf as (_ & _ & _ & Hspread).
  unfold dustInBox in *. unfold renderLoop.
  destruct (spaceDust scene) as [d |]; [| exact I].
  destruct Hb as (Hs & Hnf & Hall).
  unfold updateDust, renewDust.
  destruct (spaceDustEnabled (f_params f)); cbn [andb].
  - pose proof (movePebbles_inBox random d _ (dt f) (pebbles d) Hr Hs Hnf Hm
                  (drawn scene) Hall) as H1.
    destruct (movePebbles random d _ (dt f) (pebbles d) (drawn scene))
      as [ps k'].
    destruct (dustChanged (f_params f) _).
    + cbn [createSpacePebbles pebbleOptions JS.nullish po_count po_spread
           po_near po_far po_minScale po_maxScale spaceDust fst snd
           spread near far pebbles].
      split; [exact Hspread |]. split; [lra |].
      exact (newPebbles_inBox random (f_params f)
               (mkDust true [] (spaceDustSpread (f_params f)) 2 60
                       (spaceDustMinScale (f_params f))
                       (spaceDustMaxScale (f_params f)))
               (spaceDustCount (f_params f)) Hr Hspread
               ltac:(cbn; lra) k').
    + cbn. repeat split; assumption.
  - cbn. repeat split; assumption.
Qed.

(** X3.  The pebbles never leave their volume: if the field of a scene
    is well formed and holds its pebbles within half the spread to each
    side and between the far and the near plane, it still does after
    any sequence of frames that run forward, moves, recyclings and
    rebuilds included; and so does the field the module creates. *)
Theorem dust_stays_in_box random (scene : Scene) (frames : list Frame) :
  (forall n, 0 <= random n < 1) ->
  Forall forward frames ->
  dustInBox scene ->
  dustInBox (run random scene frames) /\
  dustInBox (run random (addSpaceDust random scene) frames).
Proof.
  intros Hr Hf Hb.
  assert (Hrun : forall s, dustInBox s -> dustInBox (run random s frames)).
  { clear Hb scene. induction Hf as [| f rest Hf1 Hf2 IH]; intros s Hs;
      [exact Hs |].
    rewrite run_cons. apply IH. now apply renderLoop_inBox. }
  split; [now apply Hrun |].
  apply Hrun. unfold addSpaceDust, dustInBox in *.
  destruct (spaceDust scene) as [d |] eqn:Hd.
  - rewrite Hd. exact Hb.
  - cbn [createSpacePebbles pebbleOptions JS.nullish po_count po_spread
         po_near po_far po_minScale po_maxScale spaceDust fst snd
         spread near far pebbles].
    split; [cbn; lra |]. split; [lra |].
    exact (newPebbles_inBox random params
             (mkDust true [] (spaceDustSpread params) 2 60
                     (spaceDustMinScale params) (spaceDustMaxScale params))
             (spaceDustCount params) Hr ltac:(cbn; lra) ltac:(cbn; lra)
             (drawn scene)).
Qed.

Lemma forward_oneSecond : forward oneSecond.
Proof. unfold forward, oneSecond. cbn. repeat split; lra. Qed.

Lemma dust_stays_in_box_witness :
  dustInBox (run half earthScene [oneSecond; oneSecond]) /\
  dustInBox (run half dustScene [oneSecond; oneSecond]).
Proof.
  apply (dust_stays_in_box half earthScene [oneSecond; oneSecond]
           half_range).
  - constructor; [apply forward_oneSecond |].
    constructor; [apply forward_oneSecond | constructor].
  - exact I.
Defined.

(** ** The field and the settings *)

Lemma neq_false (a b : R) : JS.neq a b = false -> a = b.
Proof.
  unfold JS.neq. destruct (Req_dec_T a b); [trivial | discriminate].
Qed.

Lemma dustChanged_false (P : Params) (d : Dust) :
  dustChanged P d = false ->
  List.length (pebbles d) = spaceDustCount P /\
  spread d = spaceDustSpread P /\
  sMin d = spaceDustMinScale P /\
  sMax d = spaceDustMaxScale P.
Proof.
  unfold dustChanged. intros H.
  apply orb_false_elim in H. destruct H as (H & H4).
  apply orb_false_elim in H. destruct H as (H & H3).
  apply orb_false_elim in H. destruct H as (H1 & H2).
  apply negb_false_iff, Nat.eqb_eq in H1.
  apply neq_false in H2, H3, H4. repeat split; congruence.
Qed.

(** X4.  After a frame in which the swarm is enabled, the field the
    scene refers to has the number of pebbles, the spread and the scale
    bounds of the settings and is visible: a field that differs is
    replaced in that very frame.  A frame in which the swarm is disabled
    hides the field and keeps its pebbles and its own settings, whatever
    the sliders say. *)
Theorem dust_follows_settings random (scene : Scene) (f : Frame)
  (d : Dust) :
  spaceDust scene = Some d ->
  (spaceDustEnabled (f_params f) = true ->
   exists d',
     spaceDust (renderLoop random scene f) = Some d' /\
     inst_visible d' = true /\
     List.length (pebbles d') = spaceDustCount (f_params f) /\
     spread d' = spaceDustSpread (f_params f) /\
     sMin d' = spaceDustMinScale (f_params f) /\
     sMax d' = spaceDustMaxScale (f_params f)) /\
  (spaceDustEnabled (f_params f) = false ->
   spaceDust (renderLoop random scene f)
   = Some (mkDust false (pebbles d) (spread d) (near d) (far d)
                  (sMin d) (sMax d)) /\
   drawn (renderLoop random scene f) = drawn scene).
Proof.
  intros Hd. split; intros He.
  - destruct (dustChanged (f_params f) d) eqn:Hc.
    + unfold renderLoop. rewrite Hd.
      pose proof (updateDust_dustChanged random (f_params f) (dt f) d
                    (drawn scene)) as Hu.
      destruct (updateDust random (f_params f) (dt f) d (drawn scene))
        as [d1 k1].
      cbn [fst] in Hu. unfold renewDust. rewrite He, Hu, Hc. cbn [andb].
      eexists. split; [reflexivity |].
      cbn [createSpacePebbles pebbleOptions JS.nullish po_count po_spread
           po_near po_far po_minScale po_maxScale fst inst_visible
           pebbles spread sMin sMax].
      rewrite newPebbles_length. repeat split.
    + rewrite (renderLoop_dust random scene f d Hd Hc).
      eexists. split; [reflexivity |].
      pose proof (updateDust_dustChanged random (f_params f) (dt f) d
                    (drawn scene)) as Hu.
      rewrite Hc in Hu. apply dustChanged_false in Hu.
      split; [| exact Hu].
      unfold updateDust. rewrite He.
      destruct (movePebbles random d _ (dt f) (pebbles d) (drawn scene)).
      reflexivity.
  - unfold renderLoop. rewrite Hd. unfold updateDust, renewDust.
    rewrite He. cbn. split; reflexivity.
Qed.

Lemma dust_follows_settings_witness :
  (exists d',
     spaceDust (renderLoop half dustScene oneSecond) = Some d' /\
     inst_visible d' = true /\
     List.length (pebbles d') = 800%nat /\
     spread d' = 40 /\ sMin d' = 0.05 /\ sMax d' = 0.22) /\
  spaceDust (renderLoop half dustScene dustOff)
  = Some (mkDust false (pebbles theDust) 40 2 60 0.05 0.22).
Proof.
  destruct (dust_follows_settings half dustScene oneSecond theDust eq_refl)
    as (H1 & _).
  destruct (dust_follows_settings half dustScene dustOff theDust eq_refl)
    as (_ & H2).
  split; [exact (H1 eq_refl) | exact (proj1 (H2 eq_refl))].
Defined.

(** ** What the frame does to a field *)

Lemma movePebble_keeps random (d : Dust) (dtMove dt : R) (p : Pebble)
  (j : nat) :
  let p' := fst (movePebble random d dtMove dt p j) in
  p_scale p' = p_scale p /\ rotAxis p' = rotAxis p /\
  rotSpeed p' = rotSpeed p.
Proof.
  unfold movePebble.
  destruct (JS.gt (THREE.z (pos p) + dtMove) (- near d)); cbn;
    repeat split.
Qed.

Lemma movePebbles_keeps random (d : Dust) (dtMove dt : R)
  (ps : list Pebble) : forall k,
  let ps' := fst (movePebbles random d dtMove dt ps k) in
  map p_scale ps' = map p_scale ps /\
  map rotAxis ps' = map rotAxis ps /\
  map rotSpeed ps' = map rotSpeed ps.
Proof.
  induction ps as [| p rest IH]; intros k; [repeat split |].
  cbn [movePebbles].
  destruct (movePebble_keeps random d dtMove dt p k) as (H1 & H2 & H3).
  destruct (movePebble random d dtMove dt p k) as [p' k'].
  destruct (IH k') as (I1 & I2 & I3).
  destruct (movePebbles random d dtMove dt rest k') as [rest' k''].
  cbn in *. rewrite H1, H2, H3, I1, I2, I3. repeat split.
Qed.

(** X5.  The frame's work on a field changes positions and rotation
    phases only: the pebbles keep their number, their scales, their axes
    and their rotation speeds, the field keeps its spread, its planes
    and its scale bounds, and its visibility is the "Space Dust"
    setting. *)
Theorem updateDust_keeps random (P : Params) (dt : R) (d : Dust)
  (k : nat) :
  let d' := fst (updateDust random P dt d k) in
  List.length (pebbles d') = List.length (pebbles d) /\
  map p_scale (pebbles d') = map p_scale (pebbles d) /\
  map rotAxis (pebbles d') = map rotAxis (pebbles d) /\
  map rotSpeed (pebbles d') = map rotSpeed (pebbles d) /\
  spread d' = spread d /\ near d' = near d /\ far d' = far d /\
  sMin d' = sMin d /\ sMax d' = sMax d /\
  inst_visible d' = spaceDustEnabled P.
Proof.
  destruct (updateDust_shape random P dt d k)
    as (Hl & Hs & Hn & Hf & Hmin & Hmax).
  cbv zeta. repeat split; try assumption;
    unfold updateDust; destruct (spaceDustEnabled P); try reflexivity;
    match goal with
    | |- context [movePebbles random d ?m dt (pebbles d) k] =>
        destruct (movePebbles_keeps random d m dt (pebbles d) k)
          as (H1 & H2 & H3);
        destruct (movePebbles random d m dt (pebbles d) k);
        cbn in *; assumption || reflexivity
    end.
Qed.




(** X7.  In a frame that updates the swarm, a pebble that does not pass
    the near plane keeps its lateral position and advances in depth by
    [m * (dustSpeed || 0.6) * dt]: by [m * dustSpeed * dt] for a dust
    speed that is not 0, but by [m * 0.6 * dt] when the dust speed is 0,
    so the slider at 0 does not stop the pebbles. *)
Theorem pebble_advances random (P : Params) (dt : R) (d : Dust)
  (k i : nat) (p : Pebble) :
  let dtMove :=
    JS.nullish (timeScale P) 1 * JS.or (spaceDustSpeed P) 0.6 * dt in
  spaceDustEnabled P = true ->
  nth_error (pebbles d) i = Some p ->
  ~ THREE.z (pos p) + dtMove > - near d ->
  (exists p',
     nth_error (pebbles (fst (updateDust random P dt d k))) i = Some p' /\
     pos p' = THREE.mkVector3 (THREE.x (pos p)) (THREE.y (pos p))
                              (THREE.z (pos p) + dtMove)) /\
  (spaceDustSpeed P <> 0 ->
   dtMove = JS.nullish (timeScale P) 1 * spaceDustSpeed P * dt) /\
  (spaceDustSpeed P = 0 -> dtMove = JS.nullish (timeScale P) 1 * 0.6 * dt).
Proof.
  intros dtMove He Hi Hz.
  split; [| split].
  - destruct (movePebbles_nth random d dtMove dt (pebbles d) k i p Hi)
      as (j & _ & _ & Hn).
    unfold updateDust. rewrite He. fold dtMove.
    destruct (movePebbles random d dtMove dt (pebbles d) k) as [ps k'].
    cbn [fst pebbles] in *. rewrite Hn. eexists. split; [reflexivity |].
    unfold movePebble. rewrite (gt_false _ _ Hz). reflexivity.
  - intros H. unfold dtMove. now rewrite or_nonzero.
  - intros H. unfold dtMove. now rewrite H, or_zero.
Qed.

Lemma pebble_advances_witness :
  exists p',
    nth_error
      (pebbles (fst (updateDust half (withTimeScale (Some 0) params) 1
                       theDust 1))) 0 = Some p' /\
    pos p' = THREE.mkVector3 (THREE.x (pos firstPebble))
                             (THREE.y (pos firstPebble))
                             (THREE.z (pos firstPebble) + 0 * 0.6 * 1).
Proof.
  assert (H12 : spaceDustSpeed (withTimeScale (Some 0) params) <> 0)
    by (cbn; lra).
  assert (Hz : ~ THREE.z (pos firstPebble)
                 + JS.nullish (timeScale (withTimeScale (Some 0) params)) 1
                   * JS.or (spaceDustSpeed (withTimeScale (Some 0) params))
                       0.6 * 1
               > - near theDust).
  { rewrite (or_nonzero _ _ H12). cbn. unfold half. lra. }
  destruct (pebble_advances half (withTimeScale (Some 0) params) 1 theDust
              1 0 firstPebble eq_refl eq_refl Hz) as ((p' & Hn & Hp) & H1 & _).
  exists p'. split; [exact Hn |].
  rewrite Hp. rewrite (H1 H12). reflexivity.
Defined.

(** ** Settings that are never read *)

Lemma createSpacePebbles_size random (P : Params) (sz : R) (b : bool)
  (opts : PebbleOptions) (k : nat) :
  createSpacePebbles random (withSpaceDustSize sz (withShowOrbits b P))
                     opts k
  = createSpacePebbles random P opts k.
Proof.
  unfold createSpacePebbles. cbn [spaceDustCount
    spaceDustSpread spaceDustMinScale spaceDustMaxScale
    withSpaceDustSize withShowOrbits].
  f_equal. f_equal.
  generalize (JS.nullish (po_count opts) (spaceDustCount P)).
  intros count. revert k.
  induction count as [| n IH]; intros k; [reflexivity |].
  cbn [newPebbles]. f_equal. apply IH.
Qed.

(** X8.  The "Dust Size" and "Show Orbits" settings have no part in the
    frame callback nor in the creation of the pebbles: with any other
    values for the two, a frame yields the same scene and
    [createSpacePebbles] the same field. *)
Theorem dust_size_is_not_read random (scene : Scene) (delta : R)
  (P : Params) (cam : THREE.Quaternion) (sz : R) (b : bool) :
  renderLoop random scene
    (mkFrame delta (withSpaceDustSize sz (withShowOrbits b P)) cam)
  = renderLoop random scene (mkFrame delta P cam) /\
  (forall opts k,
     createSpacePebbles random (withSpaceDustSize sz (withShowOrbits b P))
                        opts k
     = createSpacePebbles random P opts k).
Proof.
  split; [| intros opts k; apply createSpacePebbles_size].
  unfold renderLoop. cbn [f_params dt camera_quaternion].
  destruct (spaceDust scene) as [d |]; [| reflexivity].
  change (updateDust random (withSpaceDustSize sz (withShowOrbits b P)) delta
            d (drawn scene))
    with (updateDust random P delta d (drawn scene)).
  destruct (updateDust random P delta d (drawn scene)) as [d1 k1].
  unfold renewDust.
  change (pebbleOptions (withSpaceDustSize sz (withShowOrbits b P)))
    with (pebbleOptions P).
  rewrite createSpacePebbles_size. reflexivity.
Qed.

(** ** Frames compose *)

Lemma rotateY_rotateY (q : THREE.Quaternion) (a b : R) :
  THREE.rotateY (THREE.rotateY q a) b = THREE.rotateY q (a + b).
Proof.
  destruct q as [x y z w].
  unfold THREE.rotateY, THREE.setFromAxisAngle, THREE.multiplyQuaternions.
  cbn. rewrite half_sum, sin_plus, cos_plus. f_equal; ring.
Qed.

Lemma animateChild_compose (dt1 dt2 t : R) (child : Object3D) :
  animateChild dt2 t (animateChild dt1 t child)
  = animateChild (dt1 + dt2) t child.
Proof.
  destruct (isMoon (userData child)) eqn:Hm.
  - destruct (orbit (userData child)) as [mo |] eqn:Ho.
    + rewrite (animateChild_moon dt1 t child mo Hm Ho).
      rewrite (animateChild_moon (dt1 + dt2) t child mo Hm Ho).
      cbv zeta.
      match goal with
      | |- animateChild dt2 t ?c = _ =>
          rewrite (animateChild_moon dt2 t c
                     (mkOrbit (o_distance mo) (o_speed mo)
                              (angle mo + o_speed mo * dt1 * t))
                     eq_refl eq_refl)
      end.
      cbn.
      replace (angle mo + o_speed mo * dt1 * t + o_speed mo * dt2 * t)
        with (angle mo + o_speed mo * (dt1 + dt2) * t) by ring.
      reflexivity.
    + unfold animateChild. rewrite Hm, Ho. cbn. now rewrite Hm, Ho.
  - now rewrite !animateChild_other by
      (rewrite ?animateChild_other; assumption).
Qed.

Lemma animatePlanet_compose (dt1 dt2 t : R) (obj : Created) :
  animatePlanet dt2 t (animatePlanet dt1 t obj)
  = animatePlanet (dt1 + dt2) t obj.
Proof.
  unfold animatePlanet. cbn. f_equal.
  - ring.
  - rewrite rotateY_rotateY. f_equal. ring.
  - rewrite map_map. apply map_ext. intros c. apply animateChild_compose.
Qed.

(** X9.  Planets, moons and the asteroid belt do not depend on the frame
    rate: two frames of [dt1] and [dt2] under the same settings leave
    every planet (orbit angle, orientation, moons with their phases and
    positions) and the belt exactly as one frame of [dt1 + dt2] does. *)
Theorem planets_frame_rate_independent random (scene : Scene)
  (dt1 dt2 : R) (P : Params) (cam1 cam2 cam : THREE.Quaternion) :
  map sansRing
      (created (run random scene [mkFrame dt1 P cam1; mkFrame dt2 P cam2]))
  = map sansRing
      (created (renderLoop random scene (mkFrame (dt1 + dt2) P cam))) /\
  asteroidBelt (run random scene [mkFrame dt1 P cam1; mkFrame dt2 P cam2])
  = asteroidBelt (renderLoop random scene (mkFrame (dt1 + dt2) P cam)).
Proof.
  split.
  - rewrite run_sansRing, renderLoop_sansRing. apply map_ext. intros obj.
    cbn [animateFor fold_left dt multiplier f_params].
    unfold multiplier. cbn [f_params dt].
    now rewrite animatePlanet_compose.
  - cbn [run fold_left]. rewrite !renderLoop_belt.
    unfold multiplier. cbn [f_params dt].
    destruct (asteroidBelt scene) as [b |]; [| reflexivity].
    cbn. do 2 f_equal. ring.
Qed.

(** ** Orientations stay orientations *)

Lemma lengthSq_rotateY (q : THREE.Quaternion) (a : R) :
  lengthSq (THREE.rotateY q a) = lengthSq q.
Proof.
  pose proof (sin2_cos2 (a / 2)) as H. unfold Rsqr in H.
  destruct q as [x y z w].
  unfold lengthSq, THREE.rotateY, THREE.setFromAxisAngle,
    THREE.multiplyQuaternions. cbn.
  transitivity ((x * x + y * y + z * z + w * w)
                * (sin (a / 2) * sin (a / 2) + cos (a / 2) * cos (a / 2)));
    [ring | rewrite H; ring].
Qed.

Lemma lengthSq_animateFor (frames : list Frame) : forall obj,
  lengthSq (mesh_quaternion (animateFor frames obj))
  = lengthSq (mesh_quaternion obj).
Proof.
  induction frames as [| f rest IH]; intros obj; [reflexivity |].
  cbn [animateFor fold_left].
  fold (animateFor rest (animatePlanet (dt f) (multiplier f) obj)).
  rewrite IH. cbn [mesh_quaternion animatePlanet]. apply lengthSq_rotateY.
Qed.

(** X10.  No sequence of frames changes the norm of a planet mesh's
    quaternion; in the running program every planet mesh has a unit
    quaternion after any number of frames. *)
Theorem mesh_quaternions_stay_unit random (frames : list Frame) :
  (forall scene,
     map (fun c => lengthSq (mesh_quaternion c))
         (created (run random scene frames))
     = map (fun c => lengthSq (mesh_quaternion c)) (created scene)) /\
  Forall (fun c => lengthSq (mesh_quaternion c) = 1)
         (created (run random (addSpaceDust random (assemble random))
                       frames)).
Proof.
  assert (H : forall scene,
             map (fun c => lengthSq (mesh_quaternion c))
                 (created (run random scene frames))
             = map (fun c => lengthSq (mesh_quaternion c))
                   (created scene)).
  { intros scene.
    transitivity (map (fun c => lengthSq (mesh_quaternion c))
                      (map sansRing (created (run random scene frames)))).
    { rewrite map_map. apply map_ext. reflexivity. }
    rewrite run_sansRing, map_map. apply map_ext. intros obj.
    cbn [sansRing set_ring mesh_quaternion]. apply lengthSq_animateFor. }
  split; [exact H |].
  specialize (H (addSpaceDust random (assemble random))).
  rewrite created_addSpaceDust in H.
  assert (H1 : map (fun c => lengthSq (mesh_quaternion c))
                   (created (assemble random))
               = map (fun _ => 1) planets).
  { transitivity (map (fun c => lengthSq (mesh_quaternion c))
                      (map bare (created (assemble random)))).
    { rewrite map_map. apply map_ext. reflexivity. }
    rewrite assemble_bare, map_map. apply map_ext. intros p.
    unfold lengthSq. cbn. ring. }
  rewrite H1 in H. clear H1.
  apply Forall_forall. intros c Hc.
  apply (in_map (fun c => lengthSq (mesh_quaternion c))) in Hc.
  rewrite H in Hc. apply in_map_iff in Hc. now destruct Hc as (_ & <- & _).
Qed.

(** ** What the frames never change *)

Lemma spinSaturnRing_keeps {A : Type} (g : Ring -> A) :
  (forall r y, g (mkRing (rocks r) (ring_rotation_x r) y) = g r) ->
  forall t l,
  map (fun c => option_map g (ring c)) (spinSaturnRing t l)
  = map (fun c => option_map g (ring c)) l.
Proof.
  intros Hg t l. induction l as [| c rest IH]; cbn; [reflexivity |].
  destruct (isSaturn c).
  - destruct (ring c) as [r |] eqn:Hr; cbn; rewrite ?Hr; cbn;
      [| reflexivity].
    now rewrite Hg.
  - cbn. now rewrite IH.
Qed.

Lemma run_rings_keep {A : Type} (g : Ring -> A) random :
  (forall r y, g (mkRing (rocks r) (ring_rotation_x r) y) = g r) ->
  forall frames scene,
  map (fun c => option_map g (ring c)) (created (run random scene frames))
  = map (fun c => option_map g (ring c)) (created scene).
Proof.
  intros Hg. induction frames as [| f rest IH]; intros scene;
    [reflexivity |].
  rewrite run_cons, IH.
  rewrite <- (map_map ring (option_map g)), renderLoop_rings, map_map.
  now apply spinSaturnRing_keeps.
Qed.

Lemma run_labels random (frames : list Frame) : forall scene,
  _labels scene = None -> _labels (run random scene frames) = None.
Proof.
  induction frames as [| f rest IH]; intros scene H; [exact H |].
  rewrite run_cons. apply IH. now rewrite renderLoop_labels, H.
Qed.

Lemma run_labels_keep {A : Type} (g : LabelRec -> A) random :
  (forall P cam rec, g (updateLabel P cam rec) = g rec) ->
  forall frames scene,
  option_map (map g) (_labels (run random scene frames))
  = option_map (map g) (_labels scene).
Proof.
  intros Hg. induction frames as [| f rest IH]; intros scene;
    [reflexivity |].
  rewrite run_cons, IH, renderLoop_labels.
  destruct (_labels scene) as [recs |]; [| reflexivity].
  cbn. f_equal. rewrite map_map. apply map_ext. intros rec. apply Hg.
Qed.

Lemma animateChild_shape (dt t : R) (child : Object3D) :
  scale (animateChild dt t child) = scale child /\
  isMoon (userData (animateChild dt t child)) = isMoon (userData child) /\
  option_map (fun o => (o_distance o, o_speed o))
             (orbit (userData (animateChild dt t child)))
  = option_map (fun o => (o_distance o, o_speed o))
               (orbit (userData child)).
Proof.
  unfold animateChild.
  destruct (isMoon (userData child)) eqn:Hm;
    destruct (orbit (userData child)) eqn:Ho; cbn;
    rewrite ?Hm, ?Ho; repeat split.
Qed.

Lemma animateChildFor_shape (frames : list Frame) : forall child,
  scale (animateChildFor frames child) = scale child /\
  isMoon (userData (animateChildFor frames child))
  = isMoon (userData child) /\
  option_map (fun o => (o_distance o, o_speed o))
             (orbit (userData (animateChildFor frames child)))
  = option_map (fun o => (o_distance o, o_speed o))
               (orbit (userData child)).
Proof.
  induction frames as [| f rest IH]; intros child; [repeat split |].
  cbn [animateChildFor fold_left].
  destruct (animateChild_shape (dt f) (multiplier f) child)
    as (H1 & H2 & H3).
  destruct (IH (animateChild (dt f) (multiplier f) child))
    as (I1 & I2 & I3).
  unfold animateChildFor in *. rewrite I1, I2, I3, H1, H2, H3.
  repeat split.
Qed.

(** X11.  Frames move things but never change what the scene is made
    of.  After any sequence of frames every planet entry has the
    configuration, the mesh position and the mesh scale it had, the same
    children in the same order with their scales, their moon marks and
    their orbit radii and speeds; every ring has its rocks and its tilt;
    the labels are the same in number and order, with their texts and
    planets; the belt keeps its tilt.  In the running program entry [i]
    of [created] always carries planet [i] of [planets]. *)
Theorem frames_keep_shape random (scene : Scene) (frames : list Frame) :
  let after := run random scene frames in
  map data (created after) = map data (created scene) /\
  map mesh_position (created after) = map mesh_position (created scene) /\
  map mesh_scale (created after) = map mesh_scale (created scene) /\
  map (fun c =>
         map (fun ch =>
                (scale ch, isMoon (userData ch),
                 option_map (fun o => (o_distance o, o_speed o))
                            (orbit (userData ch))))
             (children c))
      (created after)
  = map (fun c =>
           map (fun ch =>
                  (scale ch, isMoon (userData ch),
                   option_map (fun o => (o_distance o, o_speed o))
                              (orbit (userData ch))))
               (children c))
        (created scene) /\
  map (fun c => option_map (fun r => (rocks r, ring_rotation_x r)) (ring c))
      (created after)
  = map (fun c => option_map (fun r => (rocks r, ring_rotation_x r))
                             (ring c))
        (created scene) /\
  option_map (map (fun rec => (text (label rec), planetObj rec)))
             (_labels after)
  = option_map (map (fun rec => (text (label rec), planetObj rec)))
               (_labels scene) /\
  option_map belt_rotation_x (asteroidBelt after)
  = option_map belt_rotation_x (asteroidBelt scene) /\
  map data
      (created (run random (addSpaceDust random (assemble random)) frames))
  = planets.
Proof.
  intros after. unfold after.
  assert (Hproj : forall (A : Type) (g : Created -> A),
             (forall c, g (sansRing c) = g c) ->
             (forall fs c, g (animateFor fs c) = g c) ->
             forall s,
             map g (created (run random s frames)) = map g (created s)).
  { intros A g Hs Ha s.
    transitivity (map g (map sansRing (created (run random s frames)))).
    { rewrite map_map. apply map_ext. intros c. now rewrite Hs. }
    rewrite run_sansRing, map_map. apply map_ext. intros c.
    now rewrite Hs, Ha. }
  assert (Hpos : forall fs c,
             mesh_position (animateFor fs c) = mesh_position c /\
             mesh_scale (animateFor fs c) = mesh_scale c).
  { induction fs as [| f rest IH]; intros c; [split; reflexivity |].
    cbn [animateFor fold_left].
    destruct (IH (animatePlanet (dt f) (multiplier f) c)) as (H1 & H2).
    unfold animateFor in *. rewrite H1, H2. split; reflexivity. }
  split; [apply Hproj; [reflexivity | apply animateFor_fields] |].
  split; [apply Hproj; [reflexivity | apply Hpos] |].
  split; [apply Hproj; [reflexivity | apply Hpos] |].
  split.
  { apply Hproj; [reflexivity |]. intros fs c.
    destruct (animateFor_fields fs c) as (_ & _ & _ & Hc & _).
    rewrite Hc, map_map. apply map_ext. intros ch.
    destruct (animateChildFor_shape fs ch) as (H1 & H2 & H3).
    now rewrite H1, H2, H3. }
  split; [now apply run_rings_keep |].
  split.
  { apply run_labels_keep. intros P cam rec.
    unfold updateLabel, faceCamera.
    destruct (labelsEnabled P); [| reflexivity].
    cbn. destruct (JS.truthy (fontSize (label rec)) && _); reflexivity. }
  split.
  { induction frames as [| f rest IH] in scene |- *; [reflexivity |].
    rewrite run_cons, IH, renderLoop_belt.
    destruct (asteroidBelt scene); reflexivity. }
  transitivity (map data
                    (map bare
                       (created (run random
                                   (addSpaceDust random (assemble random))
                                   frames)))).
  { rewrite map_map. apply map_ext. reflexivity. }
  rewrite program_bare, map_map.
  rewrite <- (map_id planets) at 2. apply map_ext. intros p.
  apply animateFor_fields.
Qed.

(** ** Parts that are not there *)

Lemma spinSaturnRing_nothing (t : R) (l : list Created) :
  (forall c, find isSaturn l = Some c -> ring c = None) ->
  spinSaturnRing t l = l.
Proof.
  induction l as [| c rest IH]; intros H; [reflexivity |].
  cbn [spinSaturnRing find] in *.
  destruct (isSaturn c).
  - now rewrite (H c eq_refl).
  - f_equal. now apply IH.
Qed.

Lemma renderLoop_no_ring random (scene : Scene) (f : Frame) :
  (forall c, find isSaturn (created scene) = Some c -> ring c = None) ->
  created (renderLoop random scene f)
  = map (animatePlanet (dt f) (multiplier f)) (created scene).
Proof.
  intros H. unfold renderLoop.
  destruct (match spaceDust scene with Some _ => _ | None => _ end).
  cbn [created]. apply spinSaturnRing_nothing.
  intros c Hc. rewrite find_animatePlanet in Hc.
  destruct (find isSaturn (created scene)) as [c0 |]; [| discriminate].
  injection Hc as <-. cbn. now apply H.
Qed.

(** X12.  The frame callback skips what is not there and never creates
    it: a scene without belt, without field or without labels stays
    without, and a scene without field draws no random number; when no
    planet is named Saturn, or the first of that name has no ring, every
    ring reference is left as it is; and with no planet at all the list
    of planets stays empty. *)
Theorem absent_parts_stay_absent random (scene : Scene)
  (frames : list Frame) :
  (asteroidBelt scene = None ->
   asteroidBelt (run random scene frames) = None) /\
  (spaceDust scene = None ->
   spaceDust (run random scene frames) = None /\
   drawn (run random scene frames) = drawn scene) /\
  (_labels scene = None -> _labels (run random scene frames) = None) /\
  ((forall c, find isSaturn (created scene) = Some c -> ring c = None) ->
   map ring (created (run random scene frames))
   = map ring (created scene)) /\
  (created scene = [] -> created (run random scene frames) = []).
Proof.
  split; [| split; [| split; [| split]]].
  - revert scene. induction frames as [| f rest IH]; intros scene H;
      [exact H |].
    rewrite run_cons. apply IH. now rewrite renderLoop_belt, H.
  - revert scene. induction frames as [| f rest IH]; intros scene H;
      [split; [exact H | reflexivity] |].
    rewrite run_cons.
    assert (H1 : spaceDust (renderLoop random scene f) = None
                 /\ drawn (renderLoop random scene f) = drawn scene)
      by (unfold renderLoop; rewrite H; split; reflexivity).
    destruct H1 as (H1 & H2). destruct (IH _ H1) as (I1 & I2).
    split; [exact I1 | congruence].
  - apply run_labels.
  - revert scene. induction frames as [| f rest IH]; intros scene H;
      [reflexivity |].
    rewrite run_cons.
    pose proof (renderLoop_no_ring random scene f H) as Hc.
    rewrite IH.
    + rewrite Hc. apply ring_animatePlanet.
    + intros c. rewrite Hc, find_animatePlanet.
      destruct (find isSaturn (created scene)) as [c0 |]; [| discriminate].
      intros Hf. injection Hf as <-. cbn. now apply H.
  - revert scene. induction frames as [| f rest IH]; intros scene H;
      [exact H |].
    rewrite run_cons. apply IH.
    rewrite renderLoop_no_ring by (rewrite H; discriminate).
    now rewrite H.
Qed.

Lemma absent_parts_stay_absent_witness :
  asteroidBelt (run half earthScene [oneSecond]) = None /\
  spaceDust (run half earthScene [oneSecond]) = None /\
  drawn (run half earthScene [oneSecond]) = 1%nat /\
  _labels (run half earthScene [oneSecond]) = None /\
  map ring (created (run half earthScene [oneSecond]))
  = map ring (created earthScene).
Proof.
  destruct (absent_parts_stay_absent half earthScene [oneSecond])
    as (H1 & H2 & H3 & H4 & _).
  destruct (H2 eq_refl) as (H2a & H2b).
  split; [exact (H1 eq_refl) |].
  split; [exact H2a |].
  split; [exact H2b |].
  split; [exact (H3 eq_refl) |].
  apply H4. intros c Hc. discriminate Hc.
Defined.

(** ** Labels *)

(** X13.  After every frame each label's visibility is the "Planet
    Labels" setting.  A frame with the labels switched off changes
    nothing else of a label: orientation, size and glyphs stay as they
    were; a frame with the labels switched on gives every label the
    camera's quaternion. *)
Theorem labels_follow_toggle random (scene : Scene) (f : Frame)
  (recs : list LabelRec) :
  _labels scene = Some recs ->
  exists recs',
    _labels (renderLoop random scene f) = Some recs' /\
    map (fun r => visible (label r)) recs'
    = map (fun _ => labelsEnabled (f_params f)) recs /\
    (labelsEnabled (f_params f) = false ->
     map (fun r => (quaternion (label r), fontSize (label r),
                    syncs (label r))) recs'
     = map (fun r => (quaternion (label r), fontSize (label r),
                      syncs (label r))) recs) /\
    (labelsEnabled (f_params f) = true ->
     map (fun r => quaternion (label r)) recs'
     = map (fun _ => camera_quaternion f) recs).
Proof.
  intros H. rewrite renderLoop_labels, H. cbn [option_map].
  eexists. split; [reflexivity |].
  split; [| split].
  - rewrite map_map. apply map_ext. intros r.
    unfold updateLabel, faceCamera.
    destruct (labelsEnabled (f_params f)); [| reflexivity].
    cbn. destruct (JS.truthy (fontSize (label r)) && _); reflexivity.
  - intros He. rewrite map_map. apply map_ext. intros r.
    unfold updateLabel. rewrite He. reflexivity.
  - intros He. rewrite map_map. apply map_ext. intros r.
    now destruct (updateLabel_quaternion (f_params f) (camera_quaternion f)
                    r He).
Qed.

Lemma labels_follow_toggle_witness :
  exists recs',
    _labels (renderLoop half venusScene
               (mkFrame 1 (withLabels false 0.6 params) THREE.identity))
    = Some recs' /\
    map (fun r => visible (label r)) recs' = [false].
Proof.
  destruct (labels_follow_toggle half venusScene
              (mkFrame 1 (withLabels false 0.6 params) THREE.identity)
              _ eq_refl) as (recs' & H1 & H2 & _).
  exists recs'. split; [exact H1 | exact H2].
Defined.

Lemma gt_small (x : R) : JS.gt (Rabs (x - x)) 0.001 = false.
Proof.
  apply gt_false. rewrite Rminus_diag, Rabs_R0. lra.
Qed.

Lemma truthy_true (x : R) : JS.truthy x = true -> x <> 0.
Proof.
  unfold JS.truthy. destruct (Req_dec_T x 0); [discriminate | trivial].
Qed.

Lemma truthy_false (x : R) : JS.truthy x = false -> x = 0.
Proof.
  unfold JS.truthy. destruct (Req_dec_T x 0); [trivial | discriminate].
Qed.

(** Size and count of synchronisations of a label after a frame. *)
Lemma updateLabel_size (P : Params) (cam : THREE.Quaternion)
  (rec : LabelRec) :
  let want := JS.or (labelSize P) 0.6 in
  let resize :=
    labelsEnabled P && JS.truthy (fontSize (label rec))
    && JS.gt (Rabs (fontSize (label rec) - want)) 0.001 in
  fontSize (label (updateLabel P cam rec))
  = (if resize then want else fontSize (label rec)) /\
  syncs (label (updateLabel P cam rec))
  = (if resize then S (syncs (label rec)) else syncs (label rec)).
Proof.
  unfold updateLabel, faceCamera.
  destruct (labelsEnabled P); [| split; reflexivity].
  cbn [set_visible set_label label fontSize syncs andb].
  destruct (JS.truthy (fontSize (label rec))
            && JS.gt (Rabs (fontSize (label rec)
                            - JS.or (labelSize P) 0.6)) 0.001);
    split; reflexivity.
Qed.

(** X14.  Under unchanged settings a label is resized at most once: the
    frame after a frame never synchronises the glyphs again nor changes
    the size.  A frame with the labels switched on leaves a label whose
    size is not 0 within 0.001 of the wanted size ([labelSize], or 0.6
    if that is 0); a label whose size is 0 is never resized. *)
Theorem label_resize_settles (P : Params) (cam1 cam2 : THREE.Quaternion)
  (rec : LabelRec) :
  let want := JS.or (labelSize P) 0.6 in
  let r1 := updateLabel P cam1 rec in
  let r2 := updateLabel P cam2 r1 in
  syncs (label r2) = syncs (label r1) /\
  fontSize (label r2) = fontSize (label r1) /\
  (syncs (label r1) <= S (syncs (label rec)))%nat /\
  (labelsEnabled P = true -> fontSize (label rec) <> 0 ->
   Rabs (fontSize (label r1) - want) <= 0.001) /\
  (fontSize (label rec) = 0 ->
   fontSize (label r1) = 0 /\ syncs (label r1) = syncs (label rec)).
Proof.
  intros want r1 r2.
  destruct (updateLabel_size P cam2 r1) as (F2 & S2).
  destruct (updateLabel_size P cam1 rec) as (F1 & S1).
  fold r2 in F2, S2. fold r1 in F1, S1. fold want in F1, S1, F2, S2.
  cbv zeta in F1, S1, F2, S2.
  remember (fontSize (label rec)) as x eqn:Ex.
  remember (syncs (label rec)) as n eqn:En.
  remember (fontSize (label r1)) as x1 eqn:Ex1.
  remember (syncs (label r1)) as n1 eqn:En1.
  remember (fontSize (label r2)) as x2 eqn:Ex2.
  remember (syncs (label r2)) as n2 eqn:En2.
  clear Ex En Ex1 En1 Ex2 En2 r1 r2.
  destruct (labelsEnabled P) eqn:He; cbn [andb] in *.
  2: { subst. split; [reflexivity |]. split; [reflexivity |].
       split; [lia |]. split; [discriminate |].
       intros H0. split; [exact H0 | reflexivity]. }
  destruct (JS.truthy x) eqn:Ht; cbn [andb] in *.
  - apply truthy_true in Ht as Hnz.
    destruct (JS.gt (Rabs (x - want)) 0.001) eqn:Hg.
    + subst x1 n1. rewrite gt_small, andb_false_r in F2, S2. subst.
      split; [reflexivity |]. split; [reflexivity |]. split; [lia |].
      split; [| intros H0; contradiction].
      intros _ _. rewrite Rminus_diag, Rabs_R0. lra.
    + subst x1 n1. rewrite Ht, Hg in F2, S2. cbn [andb] in *. subst.
      split; [reflexivity |]. split; [reflexivity |]. split; [lia |].
      split; [| intros H0; contradiction].
      intros _ _.
      destruct (Rgt_dec (Rabs (x - want)) 0.001) as [Hc | Hc]; [| lra].
      apply gt_true in Hc. congruence.
  - apply truthy_false in Ht as Hz. subst x1 n1.
    rewrite Ht in F2, S2. cbn [andb] in *. subst x2 n2.
    split; [reflexivity |]. split; [reflexivity |]. split; [lia |].
    split; [intros _ Hn; contradiction |].
    intros _. split; [exact Hz | reflexivity].
Qed.

Lemma label_resize_settles_witness :
  Rabs (fontSize
          (label (updateLabel (withLabels true 1.5 params) THREE.identity
                    (mkLabelRec (makeLabelMesh "Venus" 0.6) 0)))
        - JS.or 1.5 0.6) <= 0.001.
Proof.
  destruct (label_resize_settles (withLabels true 1.5 params) THREE.identity
              THREE.identity (mkLabelRec (makeLabelMesh "Venus" 0.6) 0))
    as (_ & _ & _ & H & _).
  apply H; [reflexivity |]. cbn. lra.
Defined.

(** ** Moons at assembly *)

Lemma addMoons_closed random (ms : list MoonData) : forall ch k,
  addMoons random ms ch k
  = (ch ++ map (fun mj => moonMesh random (fst mj) (snd mj))
               (combine ms (seq k (List.length ms))),
     (k + List.length ms)%nat).
Proof.
  induction ms as [| m rest IH]; intros ch k; cbn [addMoons].
  - cbn. rewrite app_nil_r. f_equal. lia.
  - rewrite IH. cbn [List.length seq combine map fst snd].
    rewrite <- app_assoc. cbn [app]. f_equal. lia.
Qed.

(** X15.  The moons of a planet are added to its mesh after the children
    it has, in the order of the configuration, each with the next draw
    for its start phase; nothing else of the planet changes and one draw
    is made per moon.  Every moon mesh starts at [(distance, 0, 0)] with
    the radius as its scale, carries the moon mark and its orbit
    parameters, and its start phase lies in [0, 2 PI).  A planet whose
    [moons] is not an array is left as it is. *)
Theorem moons_attached random (obj : Created) (k : nat) :
  attachMoons random obj k
  = match moons (data obj) with
    | Some ms =>
        (set_children
           (children obj
            ++ map (fun mj => moonMesh random (fst mj) (snd mj))
                   (combine ms (seq k (List.length ms))))
           obj,
         (k + List.length ms)%nat)
    | None => (obj, k)
    end /\
  (forall m j,
     0 <= random j < 1 ->
     let child := moonMesh random m j in
     position child = THREE.mkVector3 (m_distance m) 0 0 /\
     scale child = m_radius m /\
     isMoon (userData child) = true /\
     exists phase,
       orbit (userData child)
       = Some (mkOrbit (m_distance m) (m_speed m) phase) /\
       0 <= phase < 2 * PI).
Proof.
  split.
  - unfold attachMoons. destruct (moons (data obj)) as [ms |];
      [| reflexivity].
    now rewrite addMoons_closed.
  - intros m j Hr child. repeat split.
    exists (random j * PI * 2). split; [reflexivity |].
    pose proof PI_RGT_0. split; nra.
Qed.

Lemma moons_attached_witness :
  let child := moonMesh half (mkMoonData "Moon" 0.27 2.5 0.015) 0 in
  position child = THREE.mkVector3 2.5 0 0 /\
  scale child = 0.27 /\
  isMoon (userData child) = true /\
  exists phase,
    orbit (userData child) = Some (mkOrbit 2.5 0.015 phase) /\
    0 <= phase < 2 * PI.
Proof.
  destruct (moons_attached half (buildPlanetWithTilt earth) 0) as (_ & H).
  exact (H (mkMoonData "Moon" 0.27 2.5 0.015) 0%nat (half_range 0)).
Defined.

(** ** Labels at assembly *)

(** X16.  [addPlanetLabels] makes one label per planet, in order: record
    [n] belongs to planet [n], shows its name at the size [labelSize]
    (0.6 if that is 0), is visible and unturned; each planet mesh gets
    one anchor after its other children, placed at 1.2 and 0.9 times the
    planet's radius, and nothing else of a planet changes.  A frame
    under the same settings does not synchronise such a label again. *)
Theorem labels_added (P : Params) (l : list Created) (i : nat) :
  addPlanetLabels P l i
  = (map (fun obj => set_children (children obj ++ [labelAnchor obj]) obj)
         l,
     map (fun oj =>
            mkLabelRec
              (mkLabel (name (data (fst oj))) (JS.or (labelSize P) 0.6)
                       true THREE.identity 1)
              (snd oj))
         (combine l (seq i (List.length l)))) /\
  (forall obj,
     position (labelAnchor obj)
     = THREE.mkVector3 (radius (data obj) * 1.2) (radius (data obj) * 0.9)
                       0 /\
     isMoon (userData (labelAnchor obj)) = false) /\
  (forall rec cam,
     In rec (snd (addPlanetLabels P l i)) ->
     syncs (label (updateLabel P cam rec)) = 1%nat /\
     fontSize (label (updateLabel P cam rec)) = JS.or (labelSize P) 0.6).
Proof.
  assert (H : addPlanetLabels P l i
              = (map (fun obj =>
                        set_children (children obj ++ [labelAnchor obj])
                                     obj) l,
                 map (fun oj =>
                        mkLabelRec
                          (mkLabel (name (data (fst oj)))
                                   (JS.or (labelSize P) 0.6)
                                   true THREE.identity 1)
                          (snd oj))
                     (combine l (seq i (List.length l))))).
  { revert i. induction l as [| obj rest IH]; intros i; [reflexivity |].
    cbn [addPlanetLabels]. rewrite IH. reflexivity. }
  split; [exact H |].
  split; [intros obj; split; reflexivity |].
  intros rec cam Hin. rewrite H in Hin. cbn [snd] in Hin.
  apply in_map_iff in Hin. destruct Hin as (oj & <- & _).
  pose proof (updateLabel_settled P cam
                (mkLabelRec
                   (mkLabel (name (data (fst oj)))
                            (JS.or (labelSize P) 0.6)
                            true THREE.identity 1)
                   (snd oj)) eq_refl) as Hs.
  split; [exact Hs |].
  destruct (updateLabel_size P cam
              (mkLabelRec
                 (mkLabel (name (data (fst oj)))
                          (JS.or (labelSize P) 0.6)
                          true THREE.identity 1)
                 (snd oj))) as (Hf & _).
  cbv zeta in Hf. cbn [label fontSize] in Hf.
  rewrite gt_small, andb_false_r in Hf. exact Hf.
Qed.

Lemma labels_added_witness :
  syncs (label (updateLabel params THREE.identity
                  (mkLabelRec (makeLabelMesh "Venus" (JS.or 0.6 0.6)) 0)))
  = 1%nat.
Proof.
  destruct (labels_added params [buildPlanetWithTilt venus] 0)
    as (_ & _ & H).
  apply (H _ THREE.identity). left. reflexivity.
Defined.

(** ** Saturn's ring at assembly *)

Lemma ringRocks_nth random (a b : R) (count : nat) :
  forall (k i : nat) (rock : Rock),
  nth_error (ringRocks random a b count k) i = Some rock ->
  rock = ringRock random a b (k + 4 * i).
Proof.
  induction count as [| n IH]; intros k i rock H.
  - destruct i; discriminate.
  - destruct i as [| i]; cbn [ringRocks nth_error] in H.
    + injection H as <-. f_equal. lia.
    + apply IH in H. rewrite H. f_equal. lia.
Qed.

Lemma ringRocks_length random (a b : R) (count : nat) : forall k,
  List.length (ringRocks random a b count k) = count.
Proof.
  induction count as [| n IH]; intros k; cbn; [reflexivity |].
  now rewrite IH.
Qed.

(** X17.  [createSaturnRing] makes 700 rocks from four draws each and
    hands back the mesh with the ring group as one more child and
    nothing else changed.  For a mesh whose scale is not negative, each
    rock lies at a distance from the ring's axis between 0.3 and 0.55
    times that scale (the distance is linear in the draw), at most 0.25
    above or below the ring's plane, with a scale between 0.1 and 0.4;
    the ring group leans by 12 degrees and starts unturned. *)
Theorem saturn_ring_created random (saturnMesh : Created) (k i : nat)
  (rock : Rock) :
  let result := createSaturnRing random saturnMesh k in
  let ringGroup := snd (fst result) in
  let inner := mesh_scale saturnMesh * 0.3 in
  let outer := mesh_scale saturnMesh * 0.55 in
  let radius := inner + random (k + 4 * i + 1)%nat * (outer - inner) in
  (forall n, 0 <= random n < 1) ->
  0 <= mesh_scale saturnMesh ->
  nth_error (rocks ringGroup) i = Some rock ->
  inner <= radius <= outer /\
  THREE.x (rock_position rock) * THREE.x (rock_position rock)
  + THREE.z (rock_position rock) * THREE.z (rock_position rock)
  = radius * radius /\
  - 0.25 <= THREE.y (rock_position rock) <= 0.25 /\
  0.1 <= rock_scale rock <= 0.4 /\
  List.length (rocks ringGroup) = 700%nat /\
  snd result = (k + 2800)%nat /\
  ring_rotation_x ringGroup = 12 * (PI / 180) /\
  ring_rotation_y ringGroup = 0 /\
  bare (fst (fst result)) = bare saturnMesh /\
  ring (fst (fst result)) = ring saturnMesh /\
  List.length (children (fst (fst result)))
  = S (List.length (children saturnMesh)).
Proof.
  intros result ringGroup inner outer radius Hr Hs Hn.
  unfold ringGroup, result in Hn.
  cbn [createSaturnRing fst snd rocks] in Hn.
  apply ringRocks_nth in Hn. fold inner outer in Hn.
  pose proof (Hr (k + 4 * i + 1)%nat) as H1.
  pose proof (Hr (k + 4 * i + 2)%nat) as H2.
  pose proof (Hr (k + 4 * i + 3)%nat) as H3.
  assert (Hio : inner <= outer) by (unfold inner, outer; nra).
  split; [unfold radius; split; nra |].
  split.
  { rewrite Hn. cbn [ringRock rock_position THREE.x THREE.z].
    unfold ringRadius. fold radius.
    pose proof (sin2_cos2 (random (k + 4 * i)%nat * PI * 2)) as Ht.
    unfold Rsqr in Ht.
    transitivity
      ((sin (random (k + 4 * i)%nat * PI * 2)
        * sin (random (k + 4 * i)%nat * PI * 2)
        + cos (random (k + 4 * i)%nat * PI * 2)
          * cos (random (k + 4 * i)%nat * PI * 2)) * (radius * radius));
      [ring | rewrite Ht; ring]. }
  split; [rewrite Hn; cbn [ringRock rock_position THREE.y]; split; nra |].
  split; [rewrite Hn; cbn [ringRock rock_scale]; split; nra |].
  split; [unfold ringGroup, result; cbn [createSaturnRing fst snd rocks];
          apply ringRocks_length |].
  split; [unfold result; cbn [createSaturnRing snd]; lia |].
  split; [reflexivity |].
  split; [reflexivity |].
  split; [reflexivity |].
  split; [reflexivity |].
  unfold result. cbn [createSaturnRing fst set_children children].
  rewrite length_app. cbn. lia.
Qed.

Lemma saturn_ring_created_witness :
  let rock := ringRock half (4.6 * 0.3) (4.6 * 0.55) 0 in
  - 0.25 <= THREE.y (rock_position rock) <= 0.25 /\
  0.1 <= rock_scale rock <= 0.4.
Proof.
  assert (Hs : 0 <= mesh_scale (buildPlanetWithTilt saturn))
    by (cbn; lra).
  destruct (saturn_ring_created half (buildPlanetWithTilt saturn) 0 0
              (ringRock half (4.6 * 0.3) (4.6 * 0.55) 0)
              half_range Hs eq_refl)
    as (_ & _ & Hy & Hsc & _).
  split; [exact Hy | exact Hsc].
Defined.

(** X18.  The ring goes to the first planet named Saturn and to no
    other: every entry that is not named Saturn comes back unchanged,
    the list keeps its length, and 2800 draws are made.  When no planet
    is named Saturn nothing is changed and nothing is drawn. *)
Theorem ring_goes_to_first_saturn random (l : list Created) (k : nat) :
  (find isSaturn l = None -> addSaturnRing random l k = (l, k)) /\
  (forall c,
     find isSaturn l = Some c ->
     snd (addSaturnRing random l k) = (k + 2800)%nat /\
     find isSaturn (fst (addSaturnRing random l k))
     = Some (set_ring (Some (snd (fst (createSaturnRing random c k))))
                      (fst (fst (createSaturnRing random c k))))) /\
  (forall i c,
     nth_error l i = Some c -> isSaturn c = false ->
     nth_error (fst (addSaturnRing random l k)) i = Some c) /\
  List.length (fst (addSaturnRing random l k)) = List.length l.
Proof.
  split; [| split; [| split]].
  - induction l as [| a rest IH]; intros H; [reflexivity |].
    cbn [addSaturnRing find] in *.
    destruct (isSaturn a); [discriminate |].
    now rewrite (IH H).
  - induction l as [| a rest IH]; intros c H; [discriminate |].
    cbn [addSaturnRing find] in *.
    destruct (isSaturn a) eqn:Ha.
    + injection H as ->. cbn [fst snd find createSaturnRing].
      change (isSaturn (set_ring _ (set_children _ c))) with (isSaturn c).
      rewrite Ha. split; [lia | reflexivity].
    + destruct (IH c H) as (H1 & H2).
      destruct (addSaturnRing random rest k) as [rest' k'].
      cbn [fst snd find] in *. rewrite Ha. split; assumption.
  - induction l as [| a rest IH]; intros i c Hi Hc.
    + destruct i; discriminate.
    + cbn [addSaturnRing].
      destruct i as [| i]; cbn [nth_error] in Hi.
      * injection Hi as ->. rewrite Hc.
        destruct (addSaturnRing random rest k). reflexivity.
      * destruct (isSaturn a); [exact Hi |].
        specialize (IH i c Hi Hc).
        destruct (addSaturnRing random rest k). exact IH.
  - induction l as [| a rest IH]; [reflexivity |].
    cbn [addSaturnRing].
    destruct (isSaturn a); [reflexivity |].
    destruct (addSaturnRing random rest k). cbn in *. now rewrite IH.
Qed.

Lemma ring_goes_to_first_saturn_witness :
  addSaturnRing half [buildPlanetWithTilt earth; buildPlanetWithTilt venus]
                0
  = ([buildPlanetWithTilt earth; buildPlanetWithTilt venus], 0%nat) /\
  snd (addSaturnRing half
         [buildPlanetWithTilt earth; buildPlanetWithTilt saturn] 0)
  = 2800%nat /\
  nth_error
    (fst (addSaturnRing half
            [buildPlanetWithTilt earth; buildPlanetWithTilt saturn] 0)) 0
  = Some (buildPlanetWithTilt earth).
Proof.
  destruct (ring_goes_to_first_saturn half
              [buildPlanetWithTilt earth; buildPlanetWithTilt venus] 0)
    as (H1 & _).
  destruct (ring_goes_to_first_saturn half
              [buildPlanetWithTilt earth; buildPlanetWithTilt saturn] 0)
    as (_ & H2 & H3 & _).
  split; [exact (H1 eq_refl) |].
  split; [exact (proj1 (H2 _ eq_refl)) |].
  exact (H3 0%nat _ eq_refl eq_refl).
Defined.

(** ** The asteroid belt at assembly *)

Lemma beltInstances_length random (a b th mn mx : R) (count : nat) :
  forall k,
  List.length (beltInstances random a b th mn mx count k) = count.
Proof.
  induction count as [| n IH]; intros k; cbn; [reflexivity |].
  now rewrite IH.
Qed.

(** X19.  [createAsteroidBelt] makes exactly [count] instances (2000
    when no count is given, none for a count of 0) and draws eight
    numbers for each; the belt leans by 2 degrees and starts unturned.
    No two instances share a draw: instance [i] reads the draws
    [k + 8 i] to [k + 8 i + 7] only. *)
Theorem belt_created random (options : BeltOptions) (k : nat) :
  let count := JS.nullish (bo_count options) 2000%nat in
  let belt := fst (createAsteroidBelt random options k) in
  List.length (instances belt) = count /\
  snd (createAsteroidBelt random options k) = (k + 8 * count)%nat /\
  belt_rotation_x belt = 2 * (PI / 180) /\
  belt_rotation_y belt = 0 /\
  (forall i inst other,
     nth_error (instances belt) i = Some inst ->
     (forall n, (k + 8 * i <= n < k + 8 * i + 8)%nat -> other n = random n) ->
     nth_error
       (instances (fst (createAsteroidBelt other options k))) i
     = Some inst).
Proof.
  intros count belt.
  split; [apply beltInstances_length |].
  split; [reflexivity |].
  split; [reflexivity |].
  split; [reflexivity |].
  intros i inst other Hn Ho.
  unfold belt in Hn. cbn [createAsteroidBelt fst instances] in *.
  fold count in Hn |- *.
  assert (Hi : (i < count)%nat).
  { assert (Hne : nth_error (beltInstances random
                               (JS.nullish (bo_innerRadius options) 28)
                               (JS.nullish (bo_outerRadius options) 36)
                               (JS.nullish (bo_thickness options) 2.0)
                               (JS.nullish (bo_minScale options) 0.05)
                               (JS.nullish (bo_maxScale options) 0.25)
                               count k) i <> None)
      by (rewrite Hn; discriminate).
    apply nth_error_Some in Hne.
    now rewrite beltInstances_length in Hne. }
  apply beltInstances_nth in Hn.
  destruct (nth_error (beltInstances other _ _ _ _ _ count k) i)
    as [inst' |] eqn:Hn'.
  - apply beltInstances_nth in Hn'. rewrite Hn, Hn'. f_equal.
    unfold beltInstance.
    rewrite !Ho by lia. reflexivity.
  - apply nth_error_None in Hn'. rewrite beltInstances_length in Hn'. lia.
Qed.

Lemma belt_created_witness :
  nth_error (instances (fst (createAsteroidBelt half beltCall 0))) 0
  = Some (beltInstance half 28 33 2.0 0.04 0.18 0).
Proof.
  destruct (belt_created half beltCall 0) as (_ & _ & _ & _ & H).
  apply (H 0%nat _ half eq_refl). intros n _. reflexivity.
Defined.

(** ** Orbit lines *)

Lemma ellipsePoint_inTiltGroup (obj : Created) (t : R) :
  let r := distance (data obj) in
  let a := t * (2 * PI) in
  inTiltGroup (orbitLine obj) (ellipsePoint r t)
  = THREE.mkVector3 (r * cos a) 0 (r * sin a).
Proof.
  unfold inTiltGroup, ellipsePoint. cbn [orbitLine line_rotation_x fst snd].
  rewrite cos_PI2, sin_PI2.
  replace (0 + t * (2 * PI - 0)) with (t * (2 * PI)) by ring.
  f_equal; ring.
Qed.

(** X20.  [addOrbitLines] makes one visible line per planet, in order.
    Seen in the planet's tilt group, each of the 241 points of a line
    lies in the plane [y = 0] on the circle whose radius is the planet's
    orbital distance, and the first point is where
    [buildPlanetWithTilt] puts the planet's mesh.  The "Show Orbits"
    handler gives every line the chosen visibility and leaves the curves
    alone; fired while the list of lines does not exist, it fails. *)
Theorem orbit_lines (l : list Created) (value : bool) :
  List.length (addOrbitLines l) = List.length l /\
  map line_visible (addOrbitLines l) = map (fun _ => true) l /\
  (forall obj pt,
     In pt (curve_points (orbitLine obj)) ->
     THREE.y (inTiltGroup (orbitLine obj) pt) = 0 /\
     THREE.x (inTiltGroup (orbitLine obj) pt)
     * THREE.x (inTiltGroup (orbitLine obj) pt)
     + THREE.z (inTiltGroup (orbitLine obj) pt)
       * THREE.z (inTiltGroup (orbitLine obj) pt)
     = distance (data obj) * distance (data obj)) /\
  (forall obj,
     List.length (curve_points (orbitLine obj)) = 241%nat /\
     option_map (inTiltGroup (orbitLine obj))
                (hd_error (curve_points (orbitLine obj)))
     = Some (mesh_position (buildPlanetWithTilt (data obj)))) /\
  (exists ls,
     showOrbitsChanged value (Some (addOrbitLines l)) = Some ls /\
     map line_visible ls = map (fun _ => value) l /\
     map curve_points ls = map curve_points (addOrbitLines l)) /\
  showOrbitsChanged value None = None.
Proof.
  split; [apply length_map |].
  split; [unfold addOrbitLines; rewrite map_map; reflexivity |].
  split.
  { intros obj pt Hin. cbn [orbitLine curve_points] in Hin.
    unfold getPoints in Hin. apply in_map_iff in Hin.
    destruct Hin as (d & <- & _).
    rewrite ellipsePoint_inTiltGroup. cbn [THREE.x THREE.y THREE.z].
    split; [reflexivity |].
    set (a := INR d / INR 240 * (2 * PI)).
    pose proof (sin2_cos2 a) as Ht. unfold Rsqr in Ht.
    transitivity ((sin a * sin a + cos a * cos a)
                  * (distance (data obj) * distance (data obj)));
      [ring | rewrite Ht; ring]. }
  split.
  { intros obj. cbn [orbitLine curve_points]. unfold getPoints.
    split; [now rewrite length_map, length_seq |].
    change (seq 0 241) with (0%nat :: seq 1 240).
    cbn [map hd_error option_map].
    rewrite (ellipsePoint_inTiltGroup obj (INR 0 / INR 240)).
    cbn [buildPlanetWithTilt mesh_position]. change (INR 0) with 0.
    replace (0 / INR 240 * (2 * PI)) with 0 by (unfold Rdiv; ring).
    rewrite cos_0, sin_0. do 2 f_equal; ring. }
  split; [| reflexivity].
  eexists. split; [reflexivity |].
  unfold addOrbitLines. rewrite !map_map. split; reflexivity.
Qed.

Lemma orbit_lines_witness :
  THREE.y (inTiltGroup (orbitLine (buildPlanetWithTilt earth))
             (ellipsePoint 18 (INR 0 / INR 240))) = 0.
Proof.
  destruct (orbit_lines [buildPlanetWithTilt earth] true)
    as (_ & _ & H & _).
  apply H. cbn [orbitLine curve_points]. unfold getPoints.
  change (seq 0 241) with (0%nat :: seq 1 240). left. reflexivity.
Defined.
